(** * Power telemetry sampler: reader loop, calibration and window correlation

    A shallow embedding of the streaming power monitor of
    [llm_joulemeter.py] ([IntelPowerMonitor.run], [calibrate_baseline],
    [run_experiment]) and of its file-based sibling
    [llm_joulemeter_simple.py] ([get_baseline_power],
    [run_with_power_monitoring], [main]).

    - Python [float] is IEEE 754 binary64: it is modelled by [spec_float]
      with precision 53 and maximal exponent 1024, rounding to nearest even.
    - Python [str] is modelled by [list ascii]; a character is a code point
      below 256 (the output of the sampled tool is plain ASCII text).
    - The compiled regular expression is modelled by a backtracking matcher
      with the priorities of Python's [re] module (greedy repetitions try the
      longest run first, lazy ones the shortest).
    - The subprocess pipe, the wall clock, the stop flag and the outcome
      of the print of the error handler are inputs of the reader loop; the
      loop returns the queue it filled and the trace of the calls it made
      on the subprocess. *)

From Stdlib Require Import String Ascii ZArith List Lia Bool Sorted.
From Stdlib Require Import Floats.SpecFloat.
Import ListNotations.

Local Open Scope Z_scope.

(** ** Python values *)

Module Py.

(** Exceptions the modelled code can raise. *)
Inductive exn :=
| ZeroDivisionError
| OverflowError
| ValueError
| IOError.

Inductive result (A : Type) :=
| Ok (a : A)
| Raise (e : exn).
Arguments Ok {A} a.
Arguments Raise {A} e.

Definition bind {A B} (r : result A) (f : A -> result B) : result B :=
  match r with
  | Ok a => f a
  | Raise e => Raise e
  end.

Notation "x <- r ;; k" := (bind r (fun x => k))
  (at level 61, r at next level, right associativity).

(** *** binary64 floats *)

Definition float := spec_float.
Definition prec : Z := 53.
Definition emax : Z := 1024.

Definition fadd : float -> float -> float := SFadd prec emax.
Definition fsub : float -> float -> float := SFsub prec emax.
Definition fmul : float -> float -> float := SFmul prec emax.
Definition fdiv : float -> float -> float := SFdiv prec emax.
Definition fltb : float -> float -> bool := SFltb.
Definition fleb : float -> float -> bool := SFleb.
Definition feqb : float -> float -> bool := SFeqb.

Definition is_nan (x : float) : bool :=
  match x with S754_nan => true | _ => false end.

Definition is_finite (x : float) : bool :=
  match x with S754_zero _ | S754_finite _ _ _ => true | _ => false end.

Definition fzero : float := S754_zero false.

(** Nearest binary64 of an integer ([float(n)] when it does not overflow). *)
Definition of_Z (z : Z) : float := binary_normalize prec emax z 0 false.

(** Nearest binary64 of the decimal [n / 10^k], [n >= 0]: the value denoted
    by the digit string of [n] with [k] digits after the point.  The division
    is exact up to the final rounding because [SFdiv] takes mantissas of any
    size. *)
Definition of_decimal (n : Z) (k : nat) : float :=
  match n with
  | Zpos p =>
      fdiv (S754_finite false p 0)
           (S754_finite false (Z.to_pos (10 ^ Z.of_nat k)) 0)
  | _ => fzero
  end.

(** *** Strings *)

Definition str := list ascii.

Definition s (x : string) : str := list_ascii_of_string x.
Arguments s x%_string.

Definition code (a : ascii) : N := N_of_ascii a.

Definition newline : ascii := "010"%char.

Definition is_digit (a : ascii) : bool :=
  ((48 <=? code a) && (code a <=? 57))%N.

(** [str.isspace] on code points below 256, which is what [\s] matches. *)
Definition is_space (a : ascii) : bool :=
  (((9 <=? code a) && (code a <=? 13))
   || ((28 <=? code a) && (code a <=? 32))
   || (code a =? 133) || (code a =? 160))%N.

Definition digit_value (a : ascii) : Z := Z.of_N (code a) - 48.

(** [buffer[-n:]] for [n > 0]. *)
Definition last_chars (n : nat) (b : str) : str :=
  skipn (length b - n) b.

(** *** [float(text)] on plain decimal literals

    [digits], [digits.], [digits.digits]: the literals the capture group
    of the power pattern can produce.  [None] stands for a text outside
    this fragment. *)

Fixpoint read_digits (acc : Z) (t : str) : Z * nat * str :=
  match t with
  | a :: t' =>
      if is_digit a then
        let '(n, k, r) := read_digits (10 * acc + digit_value a) t' in
        (n, S k, r)
      else (acc, 0%nat, t)
  | [] => (acc, 0%nat, [])
  end.

Definition float_of_str (t : str) : option float :=
  let '(n, k, r) := read_digits 0 t in
  match k with
  | O => None
  | S _ =>
      match r with
      | [] => Some (of_decimal n 0)
      | a :: r' =>
          if Ascii.eqb a "."%char then
            let '(n', k', r'') := read_digits n r' in
            match r'' with
            | [] => Some (of_decimal n' k')
            | _ :: _ => None
            end
          else None
      end
  end.

(** Source literals. *)
Definition f0_1 : float := Eval vm_compute in of_decimal 1 1.
Definition f0_5 : float := Eval vm_compute in of_decimal 5 1.
Definition f1_3 : float := Eval vm_compute in of_decimal 13 1.
Definition f3_0 : float := Eval vm_compute in of_decimal 30 1.
Definition f4_0 : float := Eval vm_compute in of_decimal 40 1.

(** *** Numbers: [int] or [float] *)

Inductive num :=
| PInt (z : Z)
| PFloat (f : float).

(** [x > 0] and [x == 0] against the [int] literal [0]. *)
Definition gt0 (x : num) : bool :=
  match x with
  | PInt z => 0 <? z
  | PFloat f => fltb fzero f
  end.

Definition eq0 (x : num) : bool :=
  match x with
  | PInt z => z =? 0
  | PFloat f => feqb f fzero
  end.

(** Conversion of an [int] operand of a float operation: [OverflowError]
    when the integer is beyond the binary64 range. *)
Definition float_of_int (z : Z) : result float :=
  let f := of_Z z in
  if is_finite f then Ok f else Raise OverflowError.

Definition to_float (x : num) : result float :=
  match x with
  | PInt z => float_of_int z
  | PFloat f => Ok f
  end.

(** [x / y] with [x] a float: a zero divisor raises. *)
Definition truediv (x : float) (y : num) : result float :=
  d <- to_float y ;;
  if feqb d fzero then Raise ZeroDivisionError else Ok (fdiv x d).

(** [max(a, b)] on floats: the first argument is kept unless a later one is
    strictly greater. *)
Definition max2 (a b : float) : float := if fltb a b then b else a.

(** [sum(l)] on floats, left to right from the integer [0]. *)
Definition sum (l : list float) : float := fold_left fadd l (of_Z 0).

(** [sum(l) / len(l)]. *)
Definition mean (l : list float) : result float :=
  truediv (sum l) (PInt (Z.of_nat (length l))).

(** [int(x)]: truncation toward zero; not-a-number and infinities raise. *)
Definition trunc (f : float) : result Z :=
  match f with
  | S754_zero _ => Ok 0
  | S754_finite sg m e =>
      let v := if 0 <=? e then Zpos m * 2 ^ e else Zpos m / 2 ^ (- e) in
      Ok (if sg then - v else v)
  | S754_infinity _ => Raise OverflowError
  | S754_nan => Raise ValueError
  end.

Definition int_of (x : num) : result Z :=
  match x with
  | PInt z => Ok z
  | PFloat f => trunc f
  end.

(** The integer nearest to [n / d], ties to even ([n >= 0], [d > 0]). *)
Definition div_half_even (n d : Z) : Z :=
  let q := n / d in
  let r := n mod d in
  match 2 * r ?= d with
  | Lt => q
  | Gt => q + 1
  | Eq => if Z.even q then q else q + 1
  end.

(** [round(x, nd)] on a float, [nd >= 0] small: the exact value of [x] is
    rounded to [nd] decimals, ties to even, and the decimal obtained is
    converted back to the nearest float. *)
Definition round_float (f : float) (nd : nat) : float :=
  match f with
  | S754_finite sg m e =>
      let scaled := Zpos m * 10 ^ Z.of_nat nd in
      let q := if 0 <=? e then scaled * 2 ^ e
               else div_half_even scaled (2 ^ (- e)) in
      let r := match q with
               | Z0 => fzero
               | _ => of_decimal q nd
               end in
      if sg then SFopp r else r
  | _ => f
  end.

(** [round(x, nd)]: an [int] is returned unchanged for [nd >= 0]. *)
Definition round (x : num) (nd : nat) : num :=
  match x with
  | PInt z => PInt z
  | PFloat f => PFloat (round_float f nd)
  end.

End Py.

(** ** Regular expressions ([re]) *)

Module Re.
Import Py.

(** Character sets of the patterns in use. *)
Inductive cset :=
| Dot            (** [.]: any character but a newline *)
| Space          (** [\s] *)
| Digit          (** [\d] *)
| Chr (a : ascii).

Definition accepts (c : cset) (a : ascii) : bool :=
  match c with
  | Dot => negb (Ascii.eqb a newline)
  | Space => is_space a
  | Digit => is_digit a
  | Chr b => Ascii.eqb a b
  end.

(** A pattern is a sequence of quantified character sets, with the marks of
    its one capture group. *)
Inductive node :=
| One (c : cset)        (** [c] *)
| Opt (c : cset)        (** [c?] *)
| Star (c : cset)       (** [c*] *)
| Plus (c : cset)       (** [c+] *)
| LazyStar (c : cset)   (** [c*?] *)
| GroupOpen
| GroupClose.

Definition pattern := list node.

Definition lit (x : string) : pattern := map (fun a => One (Chr a)) (s x).
Arguments lit x%_string.

(** Matcher state: where group 1 was opened and what it captured. *)
Record marks := { opened : str ; captured : str }.

(** A successful match: the text of group 1 and the input left after the
    match. *)
Record found := { group1 : str ; rest : str }.

Section Repeat.
Variable c : cset.
Variable k : str -> option found.

(** Greedy run of [c]: longest first, then backing off. *)
Fixpoint greedy (t : str) : option found :=
  match t with
  | a :: t' =>
      if accepts c a then
        match greedy t' with
        | Some r => Some r
        | None => k t
        end
      else k t
  | [] => k t
  end.

(** Lazy run of [c]: shortest first, then extending. *)
Fixpoint lazy (t : str) : option found :=
  match k t with
  | Some r => Some r
  | None =>
      match t with
      | a :: t' => if accepts c a then lazy t' else None
      | [] => None
      end
  end.
End Repeat.

(** Match [p] at the start of [t]. *)
Fixpoint exec (p : pattern) (m : marks) (t : str) : option found :=
  match p with
  | [] => Some {| group1 := captured m ; rest := t |}
  | One c :: p' =>
      match t with
      | a :: t' => if accepts c a then exec p' m t' else None
      | [] => None
      end
  | Opt c :: p' =>
      match t with
      | a :: t' =>
          if accepts c a then
            match exec p' m t' with
            | Some r => Some r
            | None => exec p' m t
            end
          else exec p' m t
      | [] => exec p' m t
      end
  | Star c :: p' => greedy c (exec p' m) t
  | Plus c :: p' =>
      match t with
      | a :: t' => if accepts c a then greedy c (exec p' m) t' else None
      | [] => None
      end
  | LazyStar c :: p' => lazy c (exec p' m) t
  | GroupOpen :: p' => exec p' {| opened := t ; captured := captured m |} t
  | GroupClose :: p' =>
      exec p'
        {| opened := opened m ;
           captured := firstn (length (opened m) - length t) (opened m) |} t
  end.

Definition match_here (p : pattern) (t : str) : option found :=
  exec p {| opened := [] ; captured := [] |} t.

(** [p.search(t)]: the leftmost match. *)
Fixpoint search (p : pattern) (t : str) : option found :=
  match match_here p t with
  | Some r => Some r
  | None =>
      match t with
      | _ :: t' => search p t'
      | [] => None
      end
  end.

(** [p.findall(t)] for a pattern with one group that cannot match the empty
    string: group 1 of the successive matches, each search resuming where
    the previous match ended.  [skip] counts the characters of the current
    match still to step over. *)
Fixpoint findall_from (p : pattern) (skip : nat) (t : str) : list str :=
  match skip with
  | S n =>
      match t with
      | _ :: t' => findall_from p n t'
      | [] => []
      end
  | O =>
      match match_here p t with
      | Some r =>
          group1 r ::
            match t with
            | _ :: t' => findall_from p (length t - length (rest r) - 1) t'
            | [] => []
            end
      | None =>
          match t with
          | _ :: t' => findall_from p 0 t'
          | [] => []
          end
      end
  end.

Definition findall (p : pattern) (t : str) : list str := findall_from p 0 t.

(** The power pattern of the source, node by node: the literal text
    [Intel energy model derived package power], then [.*?], [:], [\s+],
    group 1 made of [\d+], [\.?], [\d*], then [\s*] and [W]. *)
Definition power_pattern : pattern :=
  lit "Intel energy model derived package power"
  ++ [ LazyStar Dot ; One (Chr ":") ; Plus Space ;
       GroupOpen ; Plus Digit ; Opt (Chr ".") ; Star Digit ; GroupClose ;
       Star Space ; One (Chr "W") ].

End Re.


(** ** [llm_joulemeter.py]: the monitor thread *)

Module Monitor.
Import Py Re.

(** A queued sample: [(time.time(), watts)]. *)
Definition sample : Type := float * float.

(** One call of [process.stdout.read(1)]: a character, or an exception.
    [ReadRaises] is an exception of class [Exception], the one class the
    [except] clause of the loop catches; [ReadRaisesBase] is an exception
    outside that class (a [BaseException] such as [SystemExit]), which no
    clause of [run] catches.  The end of the list of reads is the end of
    the stream, where [read] returns the empty string. *)
Inductive read :=
| Char (c : ascii)
| ReadRaises
| ReadRaisesBase.

(** What the thread does to the outside: the subprocess calls, the queue
    and the error print. *)
Inductive effect :=
| Popen
| Put (x : sample)
| PrintError
| Terminate.

(** Why the [while] loop was left. *)
Inductive exit :=
| StopRequested     (** the loop test saw the stop event *)
| EndOfStream       (** [if not char: break] *)
| Failed            (** [except Exception: print(...); break] *)
| Escaped.          (** an exception left the loop, and [run] with it *)

Record state := {
  buffer : str ;
  data_queue : list sample ;
  effects : list effect
}.

Definition cap : nat := 1000.
Definition keep : nat := 500.

(** [if len(buffer) > 1000: buffer = buffer[-500:]] *)
Definition truncate (b : str) : str :=
  if (cap <? length b)%nat then last_chars keep b else b.

Section Thread.
(** [stop_set i]: the stop event is set at the loop test that precedes
    the [i]-th read. *)
Variable stop_set : nat -> bool.
(** [now i]: the clock when the [i]-th character is processed. *)
Variable now : nat -> float.
(** [print_raises i]: the [print] of the [except] clause raises when it is
    called in the [i]-th iteration (standard output closed, say). *)
Variable print_raises : nat -> bool.

Definition put (x : sample) (st : state) (b : str) : state :=
  {| buffer := b ;
     data_queue := data_queue st ++ [x] ;
     effects := effects st ++ [Put x] |}.

Definition with_buffer (st : state) (b : str) : state :=
  {| buffer := b ; data_queue := data_queue st ; effects := effects st |}.

Definition print_error (st : state) (b : str) : state :=
  {| buffer := b ;
     data_queue := data_queue st ;
     effects := effects st ++ [PrintError] |}.

(** The body of the [try] once a character was read: it either goes on or
    raises (only [float] can, on the captured text); the right
    injection is the state at the raise. *)
Definition on_char (i : nat) (st : state) (c : ascii) : state + state :=
  let b := buffer st ++ [c] in
  if Ascii.eqb c newline then
    match search power_pattern b with
    | Some r =>
        match float_of_str (group1 r) with
        | Some watts => inl (put (now i, watts) st (truncate b))
        | None => inr (with_buffer st b)
        end
    | None => inl (with_buffer st (truncate b))
    end
  else inl (with_buffer st b).

(** The [except Exception as e] clause: [print(...)] then [break].  A
    print that raises takes its exception out of the clause, which nothing
    around it catches. *)
Definition on_exception (i : nat) (st : state) : state * exit :=
  if print_raises i then (st, Escaped)
  else (print_error st (buffer st), Failed).

(** The [while not self.stop_event.is_set()] loop. *)
Fixpoint loop (i : nat) (stdout : list read) (st : state) : state * exit :=
  if stop_set i then (st, StopRequested)
  else
    match stdout with
    | [] => (st, EndOfStream)
    | ReadRaises :: _ => on_exception i st
    | ReadRaisesBase :: _ => (st, Escaped)
    | Char c :: stdout' =>
        match on_char i st c with
        | inl st' => loop (S i) stdout' st'
        | inr st' => on_exception i st'
        end
    end.

(** [process.terminate()], the statement that follows the loop: there is
    no [finally], so it is reached when the loop was left by its test or by
    a [break], and not when an exception left the loop. *)
Definition after_loop (st : state) (why : exit) : state :=
  match why with
  | Escaped => st
  | StopRequested | EndOfStream | Failed =>
      {| buffer := buffer st ;
         data_queue := data_queue st ;
         effects := effects st ++ [Terminate] |}
  end.

(** [IntelPowerMonitor.run]. *)
Definition run (stdout : list read) : state * exit :=
  let '(st, why) :=
    loop 0 stdout
      {| buffer := [] ; data_queue := [] ; effects := [Popen] |} in
  (after_loop st why, why).
End Thread.

(** A pipe that delivers the text [t] and is then closed. *)
Definition pipe (t : str) : list read := map Char t.

(** *** Calibration *)

Record monitor := {
  queue : list sample ;
  baseline_watts : float
}.

(** [while not self.data_queue.empty(): readings.append(self.data_queue.get()[1])] *)
Fixpoint drain_readings (q : list sample) (readings : list float)
  : list float * list sample :=
  match q with
  | [] => (readings, [])
  | x :: q' => drain_readings q' (readings ++ [snd x])
  end.

(** [calibrate_baseline], from the moment the sleep is over: [queue m] is
    what the thread has put so far. *)
Definition calibrate_baseline (m : monitor) : result monitor :=
  let '(readings, _) := drain_readings (queue m) [] in
  b <- match readings with
       | _ :: _ => mean readings
       | [] => Ok f3_0
       end ;;
  Ok {| queue := [] ; baseline_watts := b |}.

End Monitor.

(** ** [llm_joulemeter.py]: [run_experiment], one task of the loop *)

Module Experiment.
Import Py Monitor.

(** The reply of the inference call, as far as the metrics read it:
    [len(output_text.split())] and the [eval_count] entry, when present. *)
Record reply := {
  words : nat ;
  eval_count : option num
}.

Inductive response :=
| RequestRaises
| Reply (r : reply).

(** The local variables once the metrics are calculated. *)
Record metrics := {
  token_count : num ;
  elapsed : float ;
  power_samples : list float ;
  avg_power_raw : float ;
  avg_power_net : float ;
  total_energy_joules : float ;
  joules_per_token : num ;
  sec_per_token : num
}.

(** The dictionary appended to [results]. *)
Record row := {
  Tokens : Z ;
  Time_s : num ;
  Avg_Watts_Raw : num ;
  Avg_Watts_Net : num ;
  Total_Joules : num ;
  Joules_Per_Token : num ;
  Sec_Per_Token : num
}.

(** How one task ends. *)
Inductive outcome :=
| Appended (m : metrics) (r : row)   (** a row joins [results] *)
| NoSamples                          (** [No power samples captured], [continue] *)
| Caught (e : exn).                  (** [except Exception], [continue] *)

(** [start_time <= t <= end_time] *)
Definition in_window (start_time end_time t : float) : bool :=
  fleb start_time t && fleb t end_time.

(** The drain of the queue that keeps the watts of the samples in the
    window. *)
Fixpoint collect (start_time end_time : float) (q : list sample)
  (power_samples : list float) : list float :=
  match q with
  | [] => power_samples
  | (t, watts) :: q' =>
      collect start_time end_time q'
        (if in_window start_time end_time t
         then power_samples ++ [watts] else power_samples)
  end.

(** [result_json.get("eval_count", 0)], estimated from the words when it
    is zero. *)
Definition tokens_of (r : reply) : result num :=
  let token_count := match eval_count r with Some n => n | None => PInt 0 end in
  if eq0 token_count then
    w <- float_of_int (Z.of_nat (words r)) ;;
    let estimate := PFloat (fmul w f1_3) in
    _ <- int_of estimate ;;
    Ok estimate
  else Ok token_count.

(** [avg_power_net = max(0.1, avg_power_raw - monitor.baseline_watts)] *)
Definition net_power (raw baseline : float) : float :=
  max2 f0_1 (fsub raw baseline).

(** [x / token_count if token_count > 0 else 0] *)
Definition per_token (x : float) (token_count : num) : result num :=
  if gt0 token_count then
    q <- truediv x token_count ;; Ok (PFloat q)
  else Ok (PInt 0).

(** The metrics of a task whose window kept the samples [ps]. *)
Definition calculate (baseline start_time end_time : float)
  (tc : num) (ps : list float) : result (metrics * row) :=
  let el := fsub end_time start_time in
  raw <- mean ps ;;
  let net := net_power raw baseline in
  let total := fmul net el in
  jpt <- per_token total tc ;;
  spt <- per_token el tc ;;
  tk <- int_of tc ;;
  Ok ({| token_count := tc ; elapsed := el ; power_samples := ps ;
         avg_power_raw := raw ; avg_power_net := net ;
         total_energy_joules := total ;
         joules_per_token := jpt ; sec_per_token := spt |},
      {| Tokens := tk ;
         Time_s := round (PFloat el) 2 ;
         Avg_Watts_Raw := round (PFloat raw) 2 ;
         Avg_Watts_Net := round (PFloat net) 2 ;
         Total_Joules := round (PFloat total) 2 ;
         Joules_Per_Token := round jpt 4 ;
         Sec_Per_Token := round spt 4 |}).

(** The body of [for task in PROMPTS], from the request on: [m] is the
    monitor when the queue is drained. *)
Definition run_task (m : monitor) (start_time end_time : float)
  (resp : response) : outcome :=
  match resp with
  | RequestRaises => Caught IOError
  | Reply r =>
      match tokens_of r with
      | Raise e => Caught e
      | Ok tc =>
          match collect start_time end_time (queue m) [] with
          | [] => NoSamples
          | (_ :: _) as ps =>
              match calculate (baseline_watts m) start_time end_time tc ps with
              | Ok (mt, rw) => Appended mt rw
              | Raise e => Caught e
              end
          end
      end
  end.

End Experiment.

(** ** [llm_joulemeter_simple.py] *)

Module Simple.
Import Py Re.

(** [float(m) for m in matches] *)
Fixpoint floats_of (matches : list str) : result (list float) :=
  match matches with
  | [] => Ok []
  | m :: ms =>
      match float_of_str m with
      | Some f => fs <- floats_of ms ;; Ok (f :: fs)
      | None => Raise ValueError
      end
  end.

(** [get_baseline_power], given the output of the sampling command. *)
Definition get_baseline_power (stdout : str) : result float :=
  match findall power_pattern stdout with
  | (_ :: _) as matches => fs <- floats_of matches ;; mean fs
  | [] => Ok f4_0
  end.

(** The calls made on the background sampler. *)
Inductive effect :=
| PopenShell
| Killpg.

Record reply := {
  words : nat ;
  eval_count : option num
}.

Inductive response :=
| RequestRaises
| Reply (r : reply).

(** Reading the power file back. *)
Inductive file :=
| OpenRaises
| Content (power_data : str).

(** The dictionary returned by [run_with_power_monitoring]. *)
Record measurement := {
  tokens : Z ;
  time_s : float ;
  avg_power_w : num ;
  max_power_w : num ;
  sec_per_token : num
}.

(** [result_json.get("eval_count", len(output_text.split()) * 1.3)] *)
Definition tokens_of (r : reply) : result num :=
  match eval_count r with
  | Some n => Ok n
  | None => w <- float_of_int (Z.of_nat (words r)) ;; Ok (PFloat (fmul w f1_3))
  end.

(** The [try] block that parses the power data: [(avg_power, max_power)],
    with [max(power_readings)] folded from the first reading on. *)
Definition parse_power (f : file) : num * num :=
  match f with
  | OpenRaises => (PInt 0, PInt 0)
  | Content power_data =>
      match floats_of (findall power_pattern power_data) with
      | Raise _ => (PInt 0, PInt 0)
      | Ok [] => (PInt 0, PInt 0)
      | Ok ((x :: rest) as power_readings) =>
          match mean power_readings with
          | Ok avg => (PFloat avg, PFloat (fold_left max2 rest x))
          | Raise _ => (PInt 0, PInt 0)
          end
      end
  end.

(** [run_with_power_monitoring]: the calls on the sampler, and the
    dictionary returned ([None] when the request failed). *)
Definition run_with_power_monitoring (start_time end_time : float)
  (resp : response) (f : file)
  : list effect * result (option measurement) :=
  match resp with
  | RequestRaises => ([PopenShell; Killpg], Ok None)
  | Reply r =>
      match tokens_of r with
      | Raise _ => ([PopenShell; Killpg], Ok None)
      | Ok tc =>
          ([PopenShell; Killpg],
           let el := fsub end_time start_time in
           let '(avg_power, max_power) := parse_power f in
           tk <- int_of tc ;;
           spt <- (if gt0 tc then
                     q <- truediv el tc ;; Ok (round (PFloat q) 4)
                   else Ok (PInt 0)) ;;
           Ok (Some {| tokens := tk ;
                       time_s := round_float el 2 ;
                       avg_power_w := round avg_power 2 ;
                       max_power_w := round max_power 2 ;
                       sec_per_token := spt |}))
      end
  end.

(** The entries [main] adds to a measurement. *)
Record energy := {
  net_power_w : float ;
  joules : float ;
  joules_per_token : num
}.

(** [max(0.1, result["avg_power_w"] - baseline_power)] *)
Definition net_power (avg_power_w : num) (baseline_power : float)
  : result float :=
  a <- to_float avg_power_w ;;
  Ok (max2 f0_1 (fsub a baseline_power)).

Definition add_energy (baseline_power : float) (m : measurement)
  : result energy :=
  net <- net_power (avg_power_w m) baseline_power ;;
  let net_w := round_float net 2 in
  let j := round_float (fmul net_w (time_s m)) 2 in
  jpt <- (if 0 <? tokens m then
            q <- truediv j (PInt (tokens m)) ;; Ok (round (PFloat q) 4)
          else Ok (PInt 0)) ;;
  Ok {| net_power_w := net_w ; joules := j ; joules_per_token := jpt |}.

End Simple.

(** ** Vocabulary of the statements *)

Module Props.
Import Py Re Monitor.

(** A zero, an infinity or a finite number of sign [sg]. *)
Definition signed (sg : bool) (x : float) : Prop :=
  x = S754_zero sg \/ x = S754_infinity sg \/ exists m e, x = S754_finite sg m e.

(** [0 <= x], which no not-a-number satisfies. *)
Definition nonneg (x : float) : Prop := fleb fzero x = true.

Definition all_in (c : cset) (t : str) : Prop :=
  Forall (fun a => accepts c a = true) t.

(** The texts of the shape [\d+\.?\d*]. *)
Inductive decimal_literal : str -> Prop :=
| literal_plain a ds :
    is_digit a = true -> all_in Digit ds ->
    decimal_literal (a :: ds)
| literal_point a ds1 ds2 :
    is_digit a = true -> all_in Digit ds1 -> all_in Digit ds2 ->
    decimal_literal ((a :: ds1) ++ "."%char :: ds2).

(** The capture group of the power pattern. *)
Definition group_nodes : pattern :=
  [Plus Digit; Opt (Chr "."); Star Digit].

Definition after_group : pattern := [Star Space; One (Chr "W")].

(** An effect of the loop body: a put or an error print. *)
Definition inner (ef : effect) : Prop := ef <> Popen /\ ef <> Terminate.

Definition good_sample (x : sample) : Prop := nonneg (snd x).

(** An oracle that never fires: the stop event is never set, the print of
    the error handler never raises. *)
Definition never (_ : nat) : bool := false.

(** The claim that the buffer never exceeds the cap, whatever is read. *)
Definition buffer_always_capped : Prop :=
  forall (stop_set : nat -> bool) (now : nat -> float)
         (print_raises : nat -> bool) (stdout : list read),
    (length (buffer (fst (run stop_set now print_raises stdout))) <= cap)%nat.

(** The claim that [terminate] is called on every way out of [run]. *)
Definition always_terminated : Prop :=
  forall (stop_set : nat -> bool) (now : nat -> float)
         (print_raises : nat -> bool) (stdout : list read),
    In Terminate (effects (fst (run stop_set now print_raises stdout))).

(** *** Inputs of the scenarios *)

(** The stop event is set from the start. *)
Definition at_once (_ : nat) : bool := true.

(** Standard output is closed: every print raises. *)
Definition closed_stdout (_ : nat) : bool := true.

(** A stopped clock. *)
Definition midnight (_ : nat) : float := fzero.

(** A line of the sampled tool that carries a reading. *)
Definition line (watts : string) : str :=
  s "Intel energy model derived package power (CPUs+GT+SA): "
  ++ s watts ++ s "W" ++ [newline].
Arguments line watts%_string.

Definition two_readings : str := line "5.00" ++ line "6.00".

Definition reading_then_noise : str := line "5.00" ++ s "foo" ++ [newline].

(** A stream of 1001 characters without a newline. *)
Definition no_newline : str := repeat "a"%char 1001.

End Props.

(** ** Vocabulary of the further properties *)

Module Shapes.
Import Py Re Monitor Props.

(** The fixed text every reading starts with. *)
Definition heading : str := s "Intel energy model derived package power".

(** A reading as the power pattern accepts it: the heading, any text [mid],
    a colon, the spaces [sp1], the number [w], the spaces [sp2] and the
    unit. *)
Definition reading (mid sp1 w sp2 : str) : str :=
  heading ++ mid ++ ":"%char :: sp1 ++ w ++ sp2 ++ ["W"%char].

(** The pattern behind the heading. *)
Definition tail_nodes : pattern :=
  [LazyStar Dot; One (Chr ":"); Plus Space]
  ++ GroupOpen :: group_nodes ++ GroupClose :: after_group.

(** A character of a line that is not a colon. *)
Definition plain (a : ascii) : Prop :=
  accepts Dot a = true /\ a <> ":"%char.

(** A blank that does not end the line. *)
Definition blank (a : ascii) : Prop :=
  is_space a = true /\ a <> newline.

(** The parts of a reading that stays on one line and names its number
    after the first colon. *)
Record one_line (mid sp1 w sp2 : str) : Prop := {
  mid_plain : Forall plain mid ;
  sp1_some : sp1 <> [] ;
  sp1_blank : Forall blank sp1 ;
  w_literal : decimal_literal w ;
  sp2_blank : Forall blank sp2
}.

(** A text in which no match of the power pattern can start. *)
Definition quiet (t : str) : Prop := Forall (fun a => a <> "I"%char) t.

(** Some text without reading followed by a reading on one line. *)
Record entry := {
  before : str ;
  e_mid : str ;
  e_sp1 : str ;
  number : str ;
  e_sp2 : str
}.

Definition render (e : entry) : str :=
  before e ++ reading (e_mid e) (e_sp1 e) (number e) (e_sp2 e).

Definition well_formed (e : entry) : Prop :=
  quiet (before e) /\ one_line (e_mid e) (e_sp1 e) (number e) (e_sp2 e).

(** The state in which the thread enters its loop. *)
Definition start : state :=
  {| buffer := [] ; data_queue := [] ; effects := [Popen] |}.

(** A line without reading followed by a reading of 5.00 W. *)
Definition sample_entry : entry :=
  {| before := s "foo" ++ [newline] ;
     e_mid := s " (CPUs+GT+SA)" ;
     e_sp1 := s " " ;
     number := s "5.00" ;
     e_sp2 := [] |}.

(** The indices, counted from [i], at which [t] holds a newline. *)
Fixpoint newline_indices (i : nat) (t : str) : list nat :=
  match t with
  | [] => []
  | a :: t' =>
      if Ascii.eqb a newline then i :: newline_indices (S i) t'
      else newline_indices (S i) t'
  end.

(** The reads that deliver a newline. *)
Definition newline_read (r : read) : bool :=
  match r with
  | Char c => Ascii.eqb c newline
  | ReadRaises | ReadRaisesBase => false
  end.

(** A clock that never runs backwards. *)
Definition monotone (now : nat -> float) : Prop :=
  forall i j, (i <= j)%nat -> fleb (now i) (now j) = true.

(** Two samples in capture order. *)
Definition not_later (x y : sample) : Prop := fleb (fst x) (fst y) = true.

End Shapes.

(** ** The ratio printouts that close both scripts *)

Module Analysis.
Import Py.

(** An [int] as an exact operand of a division. *)
Definition exact_int (z : Z) : float :=
  match z with
  | Z0 => S754_zero false
  | Zpos p => S754_finite false p 0
  | Zneg p => S754_finite true p 0
  end.

(** [a / b] on two [int]: the nearest float of the exact quotient. *)
Definition int_truediv (a b : Z) : result float :=
  if b =? 0 then Raise ZeroDivisionError
  else
    let q := fdiv (exact_int a) (exact_int b) in
    if is_finite q then Ok q else Raise OverflowError.

(** [x / y] on numbers. *)
Definition num_truediv (x y : num) : result float :=
  match x, y with
  | PFloat a, _ => truediv a y
  | PInt a, PInt b => int_truediv a b
  | PInt a, PFloat b =>
      fa <- float_of_int a ;;
      if feqb b fzero then Raise ZeroDivisionError else Ok (fdiv fa b)
  end.

(** [llm_joulemeter.py]:
    [r['Joules_Per_Token'] / baseline if baseline > 0 else 0] *)
Definition ratio (r baseline : num) : result num :=
  if gt0 baseline then q <- num_truediv r baseline ;; Ok (PFloat q)
  else Ok (PInt 0).

(** The ratios [run_experiment] prints: every row but the first against
    the first, when there are at least two rows. *)
Definition ratios (results : list Experiment.row) : list (result num) :=
  match results with
  | r0 :: ((_ :: _) as others) =>
      map (fun r => ratio (Experiment.Joules_Per_Token r)
                          (Experiment.Joules_Per_Token r0)) others
  | _ => []
  end.

(** The ratios [main] of the sibling script prints: only when the first
    row has a positive cost, and only for the rows that have one. *)
Definition simple_ratios (results : list Simple.energy) : list (result num) :=
  match results with
  | r0 :: ((_ :: _) as others) =>
      if gt0 (Simple.joules_per_token r0) then
        flat_map
          (fun r =>
             if gt0 (Simple.joules_per_token r) then
               [ q <- num_truediv (Simple.joules_per_token r)
                                  (Simple.joules_per_token r0) ;;
                 Ok (PFloat q) ]
             else [])
          others
      else []
  | _ => []
  end.

End Analysis.

(** ** Facts on binary64 arithmetic *)

Module FloatFacts.
Import Py Props.


Lemma shr_1_m (r : shr_record) :
  0 <= shr_m r -> shr_m (shr_1 r) = Z.div2 (shr_m r).
Proof.
  destruct r as [m rb sb]; simpl.
  destruct m as [|[q|q|]|q]; simpl; intros H; try reflexivity; lia.
Qed.

Lemma iter_shr_m (n : positive) :
  forall r, 0 <= shr_m r ->
  shr_m (iter_pos shr_1 n r) = Z.shiftr (shr_m r) (Zpos n).
Proof.
  induction n as [n IH|n IH|]; intros r Hr; simpl iter_pos.
  - assert (H1 : 0 <= shr_m (shr_1 r)).
    { rewrite shr_1_m by assumption. apply Z.div2_nonneg; assumption. }
    assert (H2 : 0 <= shr_m (iter_pos shr_1 n (shr_1 r))).
    { rewrite IH by assumption. apply Z.shiftr_nonneg; assumption. }
    rewrite IH by assumption. rewrite IH by assumption.
    rewrite shr_1_m by assumption.
    rewrite Z.div2_spec.
    rewrite !Z.shiftr_shiftr by lia.
    f_equal; lia.
  - assert (H2 : 0 <= shr_m (iter_pos shr_1 n r)).
    { rewrite IH by assumption. apply Z.shiftr_nonneg; assumption. }
    rewrite IH by assumption. rewrite IH by assumption.
    rewrite !Z.shiftr_shiftr by lia.
    f_equal; lia.
  - rewrite shr_1_m by assumption. apply Z.div2_spec.
Qed.

Lemma shr_record_of_loc_m m l : shr_m (shr_record_of_loc m l) = m.
Proof. destruct l as [|[]]; reflexivity. Qed.

(** The mantissa left by [shr]: the input shifted right by the positive
    part of [n]. *)
Lemma shr_m_spec r e n :
  0 <= shr_m r ->
  shr_m (fst (shr r e n)) = Z.shiftr (shr_m r) (Z.max 0 n)
  /\ snd (shr r e n) = e + Z.max 0 n.
Proof.
  intros H. destruct n as [|p|p]; simpl.
  - split; [reflexivity | lia].
  - split; [apply iter_shr_m; assumption | lia].
  - split; [reflexivity | lia].
Qed.

Lemma round_nearest_even_bounds m l :
  m <= round_nearest_even m l <= m + 1.
Proof.
  destruct l as [|[]]; simpl; try lia.
  destruct (Z.even m); lia.
Qed.


Lemma digits2_pos_lower (p : positive) :
  2 ^ (Zpos (digits2_pos p) - 1) <= Zpos p.
Proof.
  induction p as [p IH|p IH|]; simpl digits2_pos.
  - rewrite Pos2Z.inj_succ.
    replace (Z.succ (Zpos (digits2_pos p)) - 1)
      with (Z.succ (Zpos (digits2_pos p) - 1)) by lia.
    rewrite Z.pow_succ_r by lia. lia.
  - rewrite Pos2Z.inj_succ.
    replace (Z.succ (Zpos (digits2_pos p)) - 1)
      with (Z.succ (Zpos (digits2_pos p) - 1)) by lia.
    rewrite Z.pow_succ_r by lia. lia.
  - simpl. lia.
Qed.

Lemma digits2_pos_upper (p : positive) :
  Zpos p < 2 ^ Zpos (digits2_pos p).
Proof.
  induction p as [p IH|p IH|]; simpl digits2_pos.
  - rewrite Pos2Z.inj_succ, Z.pow_succ_r by lia. lia.
  - rewrite Pos2Z.inj_succ, Z.pow_succ_r by lia. lia.
  - simpl. lia.
Qed.

(** A value between [2^(k-1)] and [2^k] has [k] binary digits. *)
Lemma digits2_pos_of_bounds (p : positive) (k : Z) :
  2 ^ (k - 1) <= Zpos p < 2 ^ k -> 0 < k -> Zpos (digits2_pos p) = k.
Proof.
  intros [Hlo Hhi] Hk.
  pose proof (digits2_pos_lower p) as L.
  pose proof (digits2_pos_upper p) as U.
  assert (A : Zpos (digits2_pos p) - 1 < k).
  { apply (Z.pow_lt_mono_r_iff 2); lia. }
  assert (B : k - 1 < Zpos (digits2_pos p)).
  { apply (Z.pow_lt_mono_r_iff 2); lia. }
  lia.
Qed.

Lemma iter_xO_value (p k : positive) :
  Zpos (Pos.iter xO p k) = Zpos p * 2 ^ Zpos k.
Proof.
  induction k as [|k IH] using Pos.peano_ind.
  - simpl. lia.
  - rewrite Pos.iter_succ, Pos2Z.inj_xO, IH, Pos2Z.inj_succ.
    rewrite Z.pow_succ_r by lia. lia.
Qed.

Lemma shiftr_pos_of_digits (p : positive) (n : Z) :
  0 <= n < Zpos (digits2_pos p) -> 0 < Z.shiftr (Zpos p) n.
Proof.
  intros Hn. rewrite Z.shiftr_div_pow2 by lia.
  pose proof (digits2_pos_lower p) as L.
  assert (P : 2 ^ n <= 2 ^ (Zpos (digits2_pos p) - 1)).
  { apply Z.pow_le_mono_r; lia. }
  assert (Q : 0 < 2 ^ n) by (apply Z.pow_pos_nonneg; lia).
  apply Z.div_str_pos. lia.
Qed.

(** Rounding a non-negative mantissa keeps the sign and gives a number. *)
Lemma binary_round_aux_signed sx mx ex lx :
  0 <= mx -> signed sx (binary_round_aux prec emax sx mx ex lx).
Proof.
  intros Hm. unfold binary_round_aux, shr_fexp.
  set (n1 := fexp prec emax (Zdigits2 mx + ex) - ex).
  pose proof (shr_m_spec (shr_record_of_loc mx lx) ex n1) as S1.
  rewrite shr_record_of_loc_m in S1. specialize (S1 Hm).
  destruct (shr (shr_record_of_loc mx lx) ex n1) as [r1 e1].
  simpl in S1. destruct S1 as [S1 _].
  set (m2 := round_nearest_even (shr_m r1) (loc_of_shr_record r1)).
  assert (H2 : 0 <= m2).
  { pose proof (round_nearest_even_bounds (shr_m r1) (loc_of_shr_record r1)).
    assert (0 <= shr_m r1) by (rewrite S1; apply Z.shiftr_nonneg; assumption).
    unfold m2; lia. }
  set (n2 := fexp prec emax (Zdigits2 m2 + e1) - e1).
  pose proof (shr_m_spec (shr_record_of_loc m2 loc_Exact) e1 n2) as S2.
  rewrite shr_record_of_loc_m in S2. specialize (S2 H2).
  destruct (shr (shr_record_of_loc m2 loc_Exact) e1 n2) as [r2 e2].
  simpl in S2. destruct S2 as [S2 _].
  assert (H3 : 0 <= shr_m r2) by (rewrite S2; apply Z.shiftr_nonneg; assumption).
  unfold signed.
  destruct (shr_m r2) as [|q|q].
  - left; reflexivity.
  - destruct (e2 <=? emax - prec); right; [right; eauto | left; reflexivity].
  - lia.
Qed.

(** A positive mantissa whose exponent is not below the smallest one is
    never rounded to zero. *)
Lemma binary_round_aux_positive sx (mx : positive) ex lx :
  -1074 <= ex ->
  binary_round_aux prec emax sx (Zpos mx) ex lx = S754_infinity sx
  \/ exists m e, binary_round_aux prec emax sx (Zpos mx) ex lx = S754_finite sx m e.
Proof.
  intros He. unfold binary_round_aux, shr_fexp.
  set (n1 := fexp prec emax (Zdigits2 (Zpos mx) + ex) - ex).
  assert (N1 : Z.max 0 n1 < Zpos (digits2_pos mx)).
  { unfold n1, fexp, SpecFloat.emin, prec, emax. simpl Zdigits2. lia. }
  pose proof (shr_m_spec (shr_record_of_loc (Zpos mx) lx) ex n1) as S1.
  rewrite shr_record_of_loc_m in S1. specialize (S1 ltac:(lia)).
  destruct (shr (shr_record_of_loc (Zpos mx) lx) ex n1) as [r1 e1].
  simpl in S1. destruct S1 as [S1 E1].
  assert (P1 : 0 < shr_m r1).
  { rewrite S1. apply shiftr_pos_of_digits. lia. }
  set (m2 := round_nearest_even (shr_m r1) (loc_of_shr_record r1)).
  assert (H2 : 0 < m2).
  { pose proof (round_nearest_even_bounds (shr_m r1) (loc_of_shr_record r1)).
    unfold m2; lia. }
  destruct m2 as [|q2|q2] eqn:Em2; try lia.
  set (n2 := fexp prec emax (Zdigits2 (Zpos q2) + e1) - e1).
  assert (N2 : Z.max 0 n2 < Zpos (digits2_pos q2)).
  { unfold n2, fexp, SpecFloat.emin, prec, emax. simpl Zdigits2. lia. }
  pose proof (shr_m_spec (shr_record_of_loc (Zpos q2) loc_Exact) e1 n2) as S2.
  rewrite shr_record_of_loc_m in S2. specialize (S2 ltac:(lia)).
  destruct (shr (shr_record_of_loc (Zpos q2) loc_Exact) e1 n2) as [r2 e2].
  simpl in S2. destruct S2 as [S2 _].
  assert (P2 : 0 < shr_m r2).
  { rewrite S2. apply shiftr_pos_of_digits. lia. }
  destruct (shr_m r2) as [|q|q]; try lia.
  destruct (e2 <=? emax - prec); [right; eauto | left; reflexivity].
Qed.

(** A mantissa of exactly [prec] digits with an exponent in range is
    already in normal form. *)
Lemma binary_round_aux_exact sx (mx : positive) ex :
  Zpos (digits2_pos mx) = 53 -> -1074 <= ex <= 971 ->
  binary_round_aux prec emax sx (Zpos mx) ex loc_Exact = S754_finite sx mx ex.
Proof.
  intros Hd He. unfold binary_round_aux, shr_fexp.
  simpl Zdigits2. rewrite Hd.
  assert (F : fexp prec emax (53 + ex) - ex = 0).
  { unfold fexp, SpecFloat.emin, prec, emax. lia. }
  change IntDef.Z.sub with Z.sub. change IntDef.Z.add with Z.add.
  rewrite F.
  cbn [shr shr_record_of_loc shr_m loc_of_shr_record round_nearest_even Zdigits2].
  change IntDef.Z.sub with Z.sub. change IntDef.Z.add with Z.add.
  rewrite Hd, F.
  cbn [shr shr_record_of_loc shr_m].
  unfold emax, prec.
  destruct (Z.leb_spec ex (1024 - 53)); [reflexivity | lia].
Qed.

(** Small positive integers are exactly representable. *)
Lemma of_Z_small (z : Z) :
  0 < z < 2 ^ 53 -> exists m e, of_Z z = S754_finite false m e.
Proof.
  intros [Hlo Hhi]. destruct z as [|p|p]; try lia.
  unfold of_Z, binary_normalize, binary_round.
  pose proof (digits2_pos_lower p) as L.
  pose proof (digits2_pos_upper p) as U.
  assert (D : Zpos (digits2_pos p) <= 53).
  { assert (Zpos (digits2_pos p) - 1 < 53)
      by (apply (Z.pow_lt_mono_r_iff 2); lia).
    lia. }
  assert (F : fexp prec emax (Zpos (digits2_pos p) + 0) = Zpos (digits2_pos p) - 53).
  { unfold fexp, SpecFloat.emin, prec, emax. lia. }
  rewrite F. unfold shl_align.
  destruct (Zpos (digits2_pos p) - 53 - 0) as [|k|k] eqn:Ek; try lia.
  - exists p, 0. apply binary_round_aux_exact; lia.
  - exists (Pos.iter xO p k), (Zpos (digits2_pos p) - 53).
    apply binary_round_aux_exact; [|lia].
    apply digits2_pos_of_bounds; [|lia].
    rewrite iter_xO_value.
    assert (K : Zpos k = 53 - Zpos (digits2_pos p)) by lia.
    rewrite K.
    replace (53 - 1) with ((Zpos (digits2_pos p) - 1) + (53 - Zpos (digits2_pos p))) by lia.
    replace (2 ^ 53) with (2 ^ (Zpos (digits2_pos p)) * 2 ^ (53 - Zpos (digits2_pos p))).
    2:{ rewrite <- Z.pow_add_r by lia. f_equal. lia. }
    rewrite Z.pow_add_r by lia.
    assert (Q : 0 < 2 ^ (53 - Zpos (digits2_pos p))) by (apply Z.pow_pos_nonneg; lia).
    nia.
Qed.

(** Converting a positive integer never yields a zero. *)
Lemma of_Z_positive (p : positive) :
  of_Z (Zpos p) = S754_infinity false
  \/ exists m e, of_Z (Zpos p) = S754_finite false m e.
Proof.
  unfold of_Z, binary_normalize, binary_round.
  assert (F : -1074 <= fexp prec emax (Zpos (digits2_pos p) + 0)).
  { unfold fexp, SpecFloat.emin, prec, emax. lia. }
  unfold shl_align.
  destruct (fexp prec emax (Zpos (digits2_pos p) + 0) - 0) as [|k|k] eqn:Ek.
  - apply binary_round_aux_positive. lia.
  - apply binary_round_aux_positive. lia.
  - apply binary_round_aux_positive. lia.
Qed.


Lemma signed_nonneg x : signed false x -> nonneg x.
Proof.
  intros [->|[->|(m & e & ->)]]; reflexivity.
Qed.

Lemma nonneg_cases x :
  nonneg x ->
  (exists sg, x = S754_zero sg) \/ x = S754_infinity false
  \/ exists m e, x = S754_finite false m e.
Proof.
  unfold nonneg, fleb, SFleb.
  destruct x as [sg|[|]| |[|] m e]; simpl; intros H; try discriminate; eauto.
Qed.

Lemma binary_round_signed sx mx ex :
  signed sx (binary_round prec emax sx mx ex).
Proof.
  unfold binary_round.
  destruct (shl_align mx ex (fexp prec emax (Zpos (digits2_pos mx) + ex))) as [mz ez].
  apply binary_round_aux_signed. lia.
Qed.

Lemma fadd_nonneg x y : nonneg x -> nonneg y -> nonneg (fadd x y).
Proof.
  intros Hx Hy.
  destruct (nonneg_cases x Hx) as [[sx ->]|[->|(mx & ex & ->)]];
    destruct (nonneg_cases y Hy) as [[sy ->]|[->|(my & ey & ->)]];
    try reflexivity.
  - destruct sx, sy; reflexivity.
  - unfold fadd, SFadd. cbn [cond_Zopp].
    set (ez := Z.min ex ey).
    destruct (shl_align mx ex ez) as [ax ?], (shl_align my ey ez) as [ay ?].
    cbn [fst]. apply signed_nonneg.
    change (Z.add (Zpos ax) (Zpos ay)) with (Zpos (ax + ay)).
    cbn [binary_normalize]. apply binary_round_signed.
Qed.

Lemma fdiv_nonneg x my ey :
  nonneg x -> nonneg (fdiv x (S754_finite false my ey)).
Proof.
  intros Hx.
  destruct (nonneg_cases x Hx) as [[sx ->]|[->|(mx & ex & ->)]].
  - destruct sx; reflexivity.
  - reflexivity.
  - unfold fdiv, SFdiv, SFdiv_core_binary. cbn [xorb].
    set (e' := Z.min _ _). set (sh := Z.sub _ e').
    set (m' := match sh with Z0 => Zpos mx | Zpos _ => Z.shiftl (Zpos mx) sh | Zneg _ => Z0 end).
    assert (Hm : 0 <= m').
    { unfold m'. destruct sh; try lia. apply Z.shiftl_nonneg. lia. }
    change IntDef.Z.div_eucl with Z.div_eucl.
    pose proof (Z_div_mod m' (Zpos my) eq_refl) as D.
    destruct (Z.div_eucl m' (Zpos my)) as [q r].
    apply signed_nonneg, binary_round_aux_signed. nia.
Qed.

Lemma of_decimal_nonneg n k : nonneg (of_decimal n k).
Proof.
  unfold of_decimal. destruct n; try reflexivity.
  apply fdiv_nonneg. reflexivity.
Qed.

Lemma sum_nonneg l : Forall nonneg l -> nonneg (sum l).
Proof.
  unfold sum. generalize (of_Z 0) (eq_refl : nonneg (of_Z 0)).
  induction l as [|x l IH]; intros acc Hacc Hl; simpl.
  - assumption.
  - inversion Hl; subst. apply IH; [apply fadd_nonneg|]; assumption.
Qed.

(** [float(n)] of a list length: a positive finite float, or an overflow. *)
Lemma float_of_int_pos (p : positive) :
  float_of_int (Zpos p) = Raise OverflowError
  \/ exists m e, float_of_int (Zpos p) = Ok (S754_finite false m e).
Proof.
  unfold float_of_int.
  destruct (of_Z_positive p) as [->|(m & e & ->)]; simpl; eauto.
Qed.

Lemma float_of_int_small z :
  0 < z < 2 ^ 53 -> float_of_int z = Ok (of_Z z) /\ feqb (of_Z z) fzero = false.
Proof.
  intros H. unfold float_of_int.
  destruct (of_Z_small z H) as (m & e & ->). split; reflexivity.
Qed.

Lemma mean_small l :
  0 < Z.of_nat (length l) < 2 ^ 53 ->
  mean l = Ok (fdiv (sum l) (of_Z (Z.of_nat (length l)))).
Proof.
  intros H. unfold mean, truediv, to_float.
  destruct (float_of_int_small _ H) as [-> E]. simpl. rewrite E. reflexivity.
Qed.

Lemma mean_nonneg l v :
  Forall nonneg l -> mean l = Ok v -> nonneg v.
Proof.
  intros Hl. unfold mean, truediv, to_float.
  destruct (length l) as [|n].
  - simpl. discriminate.
  - rewrite Nat2Z.inj_succ, <- Zpos_P_of_succ_nat.
    destruct (float_of_int_pos (Pos.of_succ_nat n)) as [->|(m & e & ->)]; simpl.
    + discriminate.
    + intros [= <-]. apply fdiv_nonneg, sum_nonneg, Hl.
Qed.

(** No mean of a non-empty list divides by zero. *)
Lemma mean_no_zero_division l :
  l <> [] -> mean l <> Raise ZeroDivisionError.
Proof.
  intros Hl. unfold mean, truediv, to_float.
  destruct l as [|x l]; [congruence|]. cbn [length].
  rewrite Nat2Z.inj_succ, <- Zpos_P_of_succ_nat.
  destruct (float_of_int_pos (Pos.of_succ_nat (length l))) as [->|(m & e & ->)];
    simpl; discriminate.
Qed.

(** *** Comparisons *)

Lemma SFcompare_swap x y c :
  SFcompare x y = Some c -> SFcompare y x = Some (CompOpp c).
Proof.
  destruct x as [sx|sx| |sx mx ex], y as [sy|sy| |sy my ey]; simpl;
    try discriminate; intros [= <-];
    repeat match goal with b : bool |- _ => destruct b end; try reflexivity.
  all: change PosDef.Pos.compare_cont with Pos.compare_cont;
    replace (Pos.compare_cont Eq my mx) with (CompOpp (Pos.compare_cont Eq mx my))
      by apply (Pos.compare_cont_antisym mx my Eq);
    rewrite (Z.compare_antisym ex ey);
    destruct (ex ?= ey); simpl; try reflexivity;
    destruct (Pos.compare_cont Eq mx my); reflexivity.
Qed.

Lemma SFcompare_refl x : is_nan x = false -> SFcompare x x = Some Eq.
Proof.
  destruct x as [sx|[|]| |[|] mx ex]; simpl; try discriminate; intros _;
    try reflexivity.
  all: change PosDef.Pos.compare_cont with Pos.compare_cont;
    rewrite Z.compare_refl, Pos.compare_cont_refl; reflexivity.
Qed.

(** [max(a, b)] is one of its arguments, is not below the first one, and
    is not below the second one unless that is not a number. *)
Lemma max2_spec a b :
  is_nan a = false ->
  (max2 a b = a \/ max2 a b = b)
  /\ fleb a (max2 a b) = true
  /\ (is_nan b = false -> fleb b (max2 a b) = true).
Proof.
  intros Ha. unfold max2, fltb, fleb, SFltb, SFleb.
  destruct (SFcompare a b) as [[| |]|] eqn:C.
  - rewrite (SFcompare_refl a Ha). rewrite (SFcompare_swap _ _ _ C). simpl. auto.
  - rewrite C. split; [auto|]. split; [reflexivity|].
    intros Hb. rewrite (SFcompare_refl b Hb). reflexivity.
  - rewrite (SFcompare_refl a Ha). rewrite (SFcompare_swap _ _ _ C). simpl. auto.
  - rewrite (SFcompare_refl a Ha). split; [auto|]. split; [reflexivity|].
    intros Hb. destruct a, b; simpl in *; discriminate.
Qed.

End FloatFacts.

(** ** Facts on the matcher *)

Module ReFacts.
Import Py Re Props FloatFacts.


Section Repeat.
Variable c : cset.
Variable k : str -> option found.

Lemma greedy_inv t r :
  greedy c k t = Some r ->
  exists pre t', t = pre ++ t' /\ all_in c pre /\ k t' = Some r.
Proof.
  induction t as [|a t IH]; simpl; intros H.
  - exists [], []. repeat split; [constructor | assumption].
  - destruct (accepts c a) eqn:A.
    + destruct (greedy c k t) as [r'|] eqn:G.
      * injection H as <-.
        destruct (IH eq_refl) as (pre & t' & -> & Hp & Hk).
        exists (a :: pre), t'. repeat split; [constructor|]; assumption.
      * exists [], (a :: t). repeat split; [constructor | assumption].
    + exists [], (a :: t). repeat split; [constructor | assumption].
Qed.

Lemma lazy_inv t r :
  lazy c k t = Some r ->
  exists pre t', t = pre ++ t' /\ all_in c pre /\ k t' = Some r.
Proof.
  induction t as [|a t IH]; simpl; intros H.
  - destruct (k []) eqn:K; [|discriminate].
    exists [], []. repeat split; [constructor | congruence].
  - destruct (k (a :: t)) eqn:K.
    + exists [], (a :: t). repeat split; [constructor | congruence].
    + destruct (accepts c a) eqn:A; [|discriminate].
      destruct (IH H) as (pre & t' & -> & Hp & Hk).
      exists (a :: pre), t'. repeat split; [constructor|]; assumption.
Qed.
End Repeat.

(** The equations of [exec], node by node. *)
Lemma exec_Plus c p m t :
  exec (Plus c :: p) m t =
  match t with
  | a :: t' => if accepts c a then greedy c (exec p m) t' else None
  | [] => None
  end.
Proof. reflexivity. Qed.

Lemma exec_Opt c p m t :
  exec (Opt c :: p) m t =
  match t with
  | a :: t' =>
      if accepts c a then
        match exec p m t' with Some r => Some r | None => exec p m t end
      else exec p m t
  | [] => exec p m t
  end.
Proof. reflexivity. Qed.

Lemma exec_Star c p m t : exec (Star c :: p) m t = greedy c (exec p m) t.
Proof. reflexivity. Qed.

Lemma exec_GroupOpen p m t :
  exec (GroupOpen :: p) m t =
  exec p {| opened := t ; captured := captured m |} t.
Proof. reflexivity. Qed.

Lemma exec_GroupClose p m t :
  exec (GroupClose :: p) m t =
  exec p {| opened := opened m ;
            captured := firstn (length (opened m) - length t) (opened m) |} t.
Proof. reflexivity. Qed.

(** What a successful [exec] consumed and where it handed over to the
    rest of the pattern. *)
Lemma exec_app_inv pre p :
  forall m t r, exec (pre ++ p) m t = Some r ->
  exists m' t', exec p m' t' = Some r.
Proof.
  induction pre as [|n pre IH]; intros m t r H.
  - exists m, t. exact H.
  - destruct n; cbn [app exec] in H.
    + destruct t as [|a t]; [discriminate|].
      destruct (accepts c a); [eauto | discriminate].
    + destruct t as [|a t]; [eauto|].
      destruct (accepts c a); [|eauto].
      destruct (exec (pre ++ p) m t) eqn:E; [injection H as <-|]; eauto.
    + apply greedy_inv in H. destruct H as (? & ? & _ & _ & H). eauto.
    + destruct t as [|a t]; [discriminate|].
      destruct (accepts c a); [|discriminate].
      apply greedy_inv in H. destruct H as (? & ? & _ & _ & H). eauto.
    + apply lazy_inv in H. destruct H as (? & ? & _ & _ & H). eauto.
    + eauto.
    + eauto.
Qed.

(** Past the closing mark the captured text no longer changes. *)
Lemma exec_keeps_capture p :
  ~ In GroupClose p ->
  forall m t r, exec p m t = Some r -> group1 r = captured m.
Proof.
  induction p as [|n p IH]; intros Hn m t r H.
  - injection H as <-. reflexivity.
  - assert (Hp : ~ In GroupClose p) by (intros F; apply Hn; right; exact F).
    specialize (IH Hp).
    destruct n; cbn [exec] in H.
    + destruct t as [|a t]; [discriminate|].
      destruct (accepts c a); [eauto | discriminate].
    + destruct t as [|a t]; [eauto|].
      destruct (accepts c a); [|eauto].
      destruct (exec p m t) eqn:E; [injection H as <-|]; eauto.
    + apply greedy_inv in H. destruct H as (? & ? & _ & _ & H). eauto.
    + destruct t as [|a t]; [discriminate|].
      destruct (accepts c a); [|discriminate].
      apply greedy_inv in H. destruct H as (? & ? & _ & _ & H). eauto.
    + apply lazy_inv in H. destruct H as (? & ? & _ & _ & H). eauto.
    + apply IH in H. exact H.
    + exfalso. apply Hn. left. reflexivity.
Qed.

Lemma firstn_consumed (x y : str) :
  firstn (length (x ++ y) - length y) (x ++ y) = x.
Proof.
  rewrite length_app.
  replace (length x + length y - length y)%nat with (length x + 0)%nat by lia.
  rewrite firstn_app_2. simpl. apply app_nil_r.
Qed.


Lemma exec_group m t r :
  exec (GroupOpen :: group_nodes ++ GroupClose :: after_group) m t = Some r ->
  decimal_literal (group1 r).
Proof.
  cbn [app group_nodes]. rewrite exec_GroupOpen, exec_Plus. intros H.
  destruct t as [|a t1]; [discriminate|].
  destruct (accepts Digit a) eqn:A; [|discriminate].
  apply greedy_inv in H. destruct H as (ds1 & t2 & -> & D1 & H).
  set (m1 := {| opened := a :: ds1 ++ t2 ; captured := captured m |}) in *.
  assert (Fin : forall ds2 t4 dot,
             t2 = dot ++ ds2 ++ t4 ->
             exec (GroupClose :: after_group) m1 t4 = Some r ->
             group1 r = (a :: ds1 ++ dot ++ ds2)).
  { intros ds2 t4 dot E H4. rewrite exec_GroupClose in H4.
    apply exec_keeps_capture in H4.
    2:{ unfold after_group. simpl. intros [F|[F|[]]]; discriminate. }
    rewrite H4. cbn [captured opened m1]. rewrite E.
    replace (a :: ds1 ++ dot ++ ds2 ++ t4)
      with ((a :: ds1 ++ dot ++ ds2) ++ t4).
    - apply firstn_consumed.
    - simpl. rewrite <- !app_assoc. reflexivity. }
  assert (Star_case : forall dot t3,
             t2 = dot ++ t3 ->
             greedy Digit (exec (GroupClose :: after_group) m1) t3 = Some r ->
             exists ds2, all_in Digit ds2 /\ group1 r = a :: ds1 ++ dot ++ ds2).
  { intros dot t3 E G. apply greedy_inv in G.
    destruct G as (ds2 & t4 & -> & D2 & H4).
    exists ds2. split; [assumption|]. apply (Fin ds2 t4 dot); assumption. }
  rewrite exec_Opt in H.
  assert (No_dot : exec (Star Digit :: GroupClose :: after_group) m1 t2 = Some r ->
                   decimal_literal (group1 r)).
  { intros G. rewrite exec_Star in G. destruct (Star_case [] t2 eq_refl G) as (ds2 & D2 & ->).
    simpl. apply literal_plain; [assumption|].
    apply Forall_app; split; assumption. }
  destruct t2 as [|b t3]; [auto|].
  destruct (accepts (Chr ".") b) eqn:B; [|auto].
  destruct (exec (Star Digit :: GroupClose :: after_group) m1 t3) as [r'|] eqn:G; [|auto].
  injection H as <-. rewrite exec_Star in G.
  cbn [accepts] in B. apply Ascii.eqb_eq in B. subst b.
  destruct (Star_case ["."%char] t3 eq_refl G) as (ds2 & D2 & ->).
  replace (a :: ds1 ++ ["."%char] ++ ds2) with ((a :: ds1) ++ "."%char :: ds2) by reflexivity.
  apply literal_point; assumption.
Qed.

Lemma power_pattern_split :
  exists pre, power_pattern = pre ++ GroupOpen :: group_nodes ++ GroupClose :: after_group.
Proof.
  exists (lit "Intel energy model derived package power"
          ++ [LazyStar Dot; One (Chr ":"); Plus Space]).
  unfold power_pattern. rewrite <- app_assoc. reflexivity.
Qed.

Lemma match_here_power t r :
  match_here power_pattern t = Some r -> decimal_literal (group1 r).
Proof.
  unfold match_here. destruct power_pattern_split as (pre & ->). intros H.
  apply exec_app_inv in H. destruct H as (m' & t' & H).
  apply exec_group in H. exact H.
Qed.

Lemma search_inv p t r :
  search p t = Some r -> exists t', match_here p t' = Some r.
Proof.
  induction t as [|a t IH]; simpl.
  - destruct (match_here p []) eqn:M; [intros [= <-]; eauto | discriminate].
  - destruct (match_here p (a :: t)) eqn:M; [intros [= <-]; eauto | exact IH].
Qed.

Lemma findall_from_inv p t :
  forall skip g, In g (findall_from p skip t) ->
  exists t' r, match_here p t' = Some r /\ g = group1 r.
Proof.
  induction t as [|a t IH]; intros skip g H.
  - destruct skip; simpl in H; [|contradiction].
    destruct (match_here p []) eqn:M; simpl in H.
    + destruct H as [<-|[]]. eauto.
    + contradiction.
  - destruct skip; simpl in H; [|eauto].
    destruct (match_here p (a :: t)) eqn:M.
    + destruct H as [<-|H]; eauto.
    + eauto.
Qed.

(** *** [float] on the captured text *)

Lemma read_digits_run ds :
  forall acc rest,
  all_in Digit ds ->
  match rest with [] => True | b :: _ => is_digit b = false end ->
  exists n, read_digits acc (ds ++ rest) = (n, length ds, rest).
Proof.
  induction ds as [|a ds IH]; intros acc rest D R.
  - destruct rest as [|b rest]; simpl.
    + eauto.
    + rewrite R. eauto.
  - inversion D as [|? ? A D']; subst. cbn [accepts] in A.
    cbn [app read_digits length]. rewrite A.
    destruct (IH (10 * acc + digit_value a) rest D' R) as (n & ->). eauto.
Qed.

Lemma float_of_str_literal t :
  decimal_literal t -> exists n k, float_of_str t = Some (of_decimal n k).
Proof.
  intros [a ds A D|a ds1 ds2 A D1 D2]; unfold float_of_str.
  - destruct (read_digits_run (a :: ds) 0 []) as (n & E).
    { constructor; assumption. } { exact I. }
    rewrite app_nil_r in E. rewrite E. simpl. eauto.
  - destruct (read_digits_run (a :: ds1) 0 ("."%char :: ds2)) as (n & E).
    { constructor; assumption. } { reflexivity. }
    rewrite E. cbn [length].
    change (Ascii.eqb "." ".") with true. cbv iota.
    destruct (read_digits_run ds2 n [] D2 I) as (n' & E').
    rewrite app_nil_r in E'. rewrite E'. eauto.
Qed.

(** Every text captured by the power pattern converts to a non-negative
    float. *)
Lemma captured_float t r :
  match_here power_pattern t = Some r ->
  exists v, float_of_str (group1 r) = Some v /\ nonneg v.
Proof.
  intros H. apply match_here_power, float_of_str_literal in H.
  destruct H as (n & k & ->). eexists; split; [reflexivity|].
  apply of_decimal_nonneg.
Qed.

Lemma search_float b r :
  search power_pattern b = Some r ->
  exists v, float_of_str (group1 r) = Some v /\ nonneg v.
Proof.
  intros H. apply search_inv in H. destruct H as (t' & H).
  exact (captured_float _ _ H).
Qed.

End ReFacts.

(** ** Facts on the reader loop *)

Module MonitorFacts.
Import Py Re Monitor Props FloatFacts ReFacts.

Lemma truncate_length b : (length (truncate b) <= cap)%nat.
Proof.
  unfold truncate. destruct (Nat.ltb_spec cap (length b)) as [H|H].
  - unfold last_chars. rewrite length_skipn. unfold cap, keep in *. lia.
  - exact H.
Qed.

Lemma truncate_long b :
  (cap < length b)%nat ->
  truncate b = last_chars keep b /\ length (truncate b) = keep.
Proof.
  intros H. unfold truncate. destruct (Nat.ltb_spec cap (length b)) as [_|H']; [|lia].
  split; [reflexivity|]. unfold last_chars. rewrite length_skipn.
  unfold cap, keep in *. lia.
Qed.


(** [process.terminate()] touches neither the buffer nor the queue. *)
Lemma after_loop_buffer st why : buffer (after_loop st why) = buffer st.
Proof. destruct why; reflexivity. Qed.

Lemma after_loop_queue st why : data_queue (after_loop st why) = data_queue st.
Proof. destruct why; reflexivity. Qed.

Lemma after_loop_effects st why :
  why <> Escaped -> effects (after_loop st why) = effects st ++ [Terminate].
Proof. destruct why; [reflexivity..|intros H; destruct (H eq_refl)]. Qed.

Section Thread.
Variable stop_set : nat -> bool.
Variable now : nat -> float.
Variable print_raises : nat -> bool.

(** The [try] body never raises: the captured text always converts. *)
Lemma on_char_total i st c : exists st', on_char now i st c = inl st'.
Proof.
  unfold on_char. destruct (Ascii.eqb c newline); [|eauto].
  destruct (search power_pattern (buffer st ++ [c])) as [r|] eqn:S; [|eauto].
  destruct (search_float _ _ S) as (v & -> & _). eauto.
Qed.

Lemma on_char_buffer i st c st' :
  on_char now i st c = inl st' ->
  buffer st' = if Ascii.eqb c newline then truncate (buffer st ++ [c])
               else buffer st ++ [c].
Proof.
  unfold on_char. destruct (Ascii.eqb c newline).
  - destruct (search power_pattern (buffer st ++ [c])) as [r|].
    + destruct (float_of_str (group1 r)); intros [= <-]; reflexivity.
    + intros [= <-]. reflexivity.
  - intros [= <-]. reflexivity.
Qed.

Lemma on_char_effects i st c st' :
  on_char now i st c = inl st' ->
  (data_queue st' = data_queue st /\ effects st' = effects st)
  \/ exists r w,
       Ascii.eqb c newline = true
       /\ search power_pattern (buffer st ++ [c]) = Some r
       /\ float_of_str (group1 r) = Some w /\ nonneg w
       /\ data_queue st' = data_queue st ++ [(now i, w)]
       /\ effects st' = effects st ++ [Put (now i, w)].
Proof.
  unfold on_char. destruct (Ascii.eqb c newline).
  - destruct (search power_pattern (buffer st ++ [c])) as [r|] eqn:S.
    + destruct (search_float _ _ S) as (v & E & Hv). rewrite E.
      intros [= <-]. right. exists r, v. simpl. auto 10.
    + intros [= <-]. left. split; reflexivity.
  - intros [= <-]. left. split; reflexivity.
Qed.

Lemma loop_effects stdout :
  forall i st st' why,
  loop stop_set now print_raises i stdout st = (st', why) ->
  exists tr, effects st' = effects st ++ tr /\ Forall inner tr.
Proof.
  induction stdout as [|rd stdout IH]; intros i st st' why; cbn [loop].
  - destruct (stop_set i); intros [= <- <-]; exists [];
      rewrite app_nil_r; split; constructor.
  - destruct (stop_set i).
    { intros [= <- <-]. exists []. rewrite app_nil_r; split; constructor. }
    destruct rd as [c| |].
    + destruct (on_char now i st c) as [st1|st1] eqn:E.
      * intros L. destruct (IH _ _ _ _ L) as (tr & -> & Htr).
        destruct (on_char_effects _ _ _ _ E) as [[_ ->]|(r & w & _ & _ & _ & _ & _ & ->)].
        -- exists tr. split; [reflexivity | assumption].
        -- exists (Put (now i, w) :: tr). rewrite <- app_assoc. split; [reflexivity|].
           constructor; [split; discriminate | assumption].
      * destruct (on_char_total i st c) as (st2 & E2). congruence.
    + unfold on_exception. destruct (print_raises i); intros [= <- <-].
      * exists []. rewrite app_nil_r. split; constructor.
      * exists [PrintError]. split; [reflexivity|].
        constructor; [split; discriminate | constructor].
    + intros [= <- <-]. exists []. rewrite app_nil_r. split; constructor.
Qed.

Lemma loop_queue stdout :
  forall i st st' why,
  loop stop_set now print_raises i stdout st = (st', why) ->
  Forall good_sample (data_queue st) -> Forall good_sample (data_queue st').
Proof.
  induction stdout as [|rd stdout IH]; intros i st st' why; cbn [loop].
  - destruct (stop_set i); intros [= <- <-]; auto.
  - destruct (stop_set i); [intros [= <- <-]; auto|].
    destruct rd as [c| |].
    + destruct (on_char now i st c) as [st1|st1] eqn:E.
      * intros L Hq. apply (IH _ _ _ _ L).
        destruct (on_char_effects _ _ _ _ E) as [[-> _]|(r & w & _ & _ & _ & Hw & -> & _)].
        -- assumption.
        -- apply Forall_app. split; [assumption|]. constructor; [exact Hw | constructor].
      * destruct (on_char_total i st c) as (st2 & E2). congruence.
    + unfold on_exception. destruct (print_raises i); intros [= <- <-]; auto.
    + intros [= <- <-]. auto.
Qed.

Lemma loop_failed stdout :
  forall i st st',
  loop stop_set now print_raises i stdout st = (st', Failed) ->
  In ReadRaises stdout.
Proof.
  induction stdout as [|rd stdout IH]; intros i st st'; cbn [loop].
  - destruct (stop_set i); discriminate.
  - destruct (stop_set i); [discriminate|].
    destruct rd as [c| |].
    + destruct (on_char now i st c) as [st1|st1] eqn:E.
      * intros L. right. exact (IH _ _ _ L).
      * destruct (on_char_total i st c) as (st2 & E2). congruence.
    + intros _. left. reflexivity.
    + discriminate.
Qed.

(** An exception leaves the loop only from a read: one that raises outside
    [Exception], or one whose handler's print raises. *)
Lemma loop_escaped stdout :
  forall i st st',
  loop stop_set now print_raises i stdout st = (st', Escaped) ->
  In ReadRaisesBase stdout
  \/ (In ReadRaises stdout /\ exists j, print_raises j = true).
Proof.
  induction stdout as [|rd stdout IH]; intros i st st'; cbn [loop].
  - destruct (stop_set i); discriminate.
  - destruct (stop_set i); [discriminate|].
    destruct rd as [c| |].
    + destruct (on_char now i st c) as [st1|st1] eqn:E.
      * intros L. destruct (IH _ _ _ L) as [H|[H H']].
        -- left. right. exact H.
        -- right. split; [right; exact H | exact H'].
      * destruct (on_char_total i st c) as (st2 & E2). congruence.
    + unfold on_exception. destruct (print_raises i) eqn:P; [|discriminate].
      intros _. right. split; [left; reflexivity | exists i; exact P].
    + intros _. left. left. reflexivity.
Qed.
End Thread.

(** With no stop request, a pipe that ends on a newline leaves a buffer
    within the cap. *)
Lemma loop_line_end now print_raises t :
  forall i st,
  (length (buffer (fst (loop (fun _ => false) now print_raises i
                          (pipe (t ++ [newline])) st)))
   <= cap)%nat.
Proof.
  induction t as [|a t IH]; intros i st; cbn [pipe map app loop].
  - destruct (on_char_total now i st newline) as (st' & E). rewrite E.
    cbn [fst]. rewrite (on_char_buffer _ _ _ _ _ E).
    rewrite Ascii.eqb_refl. apply truncate_length.
  - destruct (on_char_total now i st a) as (st' & E). rewrite E.
    apply IH.
Qed.

End MonitorFacts.

(** ** Facts on calibration and on the tasks *)

Module ExperimentFacts.
Import Py Re Monitor Experiment Props FloatFacts ReFacts MonitorFacts.

Lemma drain_readings_spec q :
  forall readings,
  drain_readings q readings = (readings ++ map snd q, []).
Proof.
  induction q as [|x q IH]; intros readings; simpl.
  - rewrite app_nil_r. reflexivity.
  - rewrite IH, <- app_assoc. reflexivity.
Qed.

Lemma collect_spec start_time end_time q :
  forall acc,
  collect start_time end_time q acc =
  acc ++ map snd (filter (fun x => in_window start_time end_time (fst x)) q).
Proof.
  induction q as [|[t w] q IH]; intros acc; simpl.
  - rewrite app_nil_r. reflexivity.
  - rewrite IH. destruct (in_window start_time end_time t); simpl.
    + rewrite <- app_assoc. reflexivity.
    + reflexivity.
Qed.

(** An exception that is not raised stays so when it is passed on. *)
Ltac same_raise H :=
  let E := fresh in intros E; injection E as ->; exact (H eq_refl).

(** A positive token count is a non-zero divisor. *)
Lemma gt0_divisor tc :
  gt0 tc = true ->
  to_float tc = Raise OverflowError
  \/ exists d, to_float tc = Ok d /\ feqb d fzero = false.
Proof.
  destruct tc as [z|f]; simpl.
  - intros H. apply Z.ltb_lt in H. destruct z as [|p|p]; try lia.
    destruct (float_of_int_pos p) as [->|(m & e & ->)]; [left; reflexivity|].
    right. eexists; split; reflexivity.
  - unfold fltb, SFltb. intros H. right. exists f. split; [reflexivity|].
    destruct (SFcompare fzero f) as [[| |]|] eqn:C; try discriminate.
    unfold feqb, SFeqb. rewrite (SFcompare_swap _ _ _ C). reflexivity.
Qed.

Lemma per_token_spec x tc :
  per_token x tc <> Raise ZeroDivisionError
  /\ (gt0 tc = false -> per_token x tc = Ok (PInt 0))
  /\ (gt0 tc = true ->
      per_token x tc = Raise OverflowError
      \/ exists d, to_float tc = Ok d /\ feqb d fzero = false
                   /\ per_token x tc = Ok (PFloat (fdiv x d))).
Proof.
  unfold per_token, truediv. destruct (gt0 tc) eqn:G.
  - destruct (gt0_divisor tc G) as [->|(d & -> & E)]; simpl.
    + repeat split; try discriminate. intros _. left. reflexivity.
    + rewrite E. simpl. repeat split; try discriminate.
      intros _. right. exists d. auto.
  - repeat split; try discriminate.
Qed.

(** A zero token count is not positive. *)
Lemma eq0_not_gt0 tc : eq0 tc = true -> gt0 tc = false.
Proof.
  destruct tc as [z|f]; simpl.
  - intros H. apply Z.eqb_eq in H. subst. reflexivity.
  - unfold feqb, fltb, SFeqb, SFltb. intros H.
    destruct (SFcompare f fzero) as [[| |]|] eqn:C; try discriminate.
    rewrite (SFcompare_swap _ _ _ C). reflexivity.
Qed.

Lemma float_of_int_no_zero_division z : float_of_int z <> Raise ZeroDivisionError.
Proof. unfold float_of_int. destruct (is_finite (of_Z z)); discriminate. Qed.

Lemma int_of_no_zero_division x : int_of x <> Raise ZeroDivisionError.
Proof. destruct x as [z|[| | |]]; simpl; discriminate. Qed.

Lemma tokens_of_no_zero_division r : tokens_of r <> Raise ZeroDivisionError.
Proof.
  unfold tokens_of. destruct (eq0 _); [|discriminate].
  pose proof (float_of_int_no_zero_division (Z.of_nat (words r))) as F.
  destruct (float_of_int (Z.of_nat (words r))) as [w|e]; simpl.
  - destruct (fmul w f1_3); simpl; discriminate.
  - same_raise F.
Qed.

(** What [calculate] returns when it returns. *)
Lemma calculate_inv baseline start_time end_time tc ps mt rw :
  calculate baseline start_time end_time tc ps = Ok (mt, rw) ->
  token_count mt = tc
  /\ power_samples mt = ps
  /\ elapsed mt = fsub end_time start_time
  /\ mean ps = Ok (avg_power_raw mt)
  /\ avg_power_net mt = net_power (avg_power_raw mt) baseline
  /\ total_energy_joules mt = fmul (avg_power_net mt) (elapsed mt)
  /\ per_token (total_energy_joules mt) tc = Ok (joules_per_token mt)
  /\ per_token (elapsed mt) tc = Ok (sec_per_token mt)
  /\ int_of tc = Ok (Tokens rw)
  /\ Joules_Per_Token rw = round (joules_per_token mt) 4
  /\ Sec_Per_Token rw = round (sec_per_token mt) 4.
Proof.
  unfold calculate.
  destruct (mean ps) as [raw|]; simpl; [|discriminate].
  destruct (per_token _ tc) as [jpt|] eqn:J; simpl; [|discriminate].
  destruct (per_token (fsub end_time start_time) tc) as [spt|] eqn:S; simpl; [|discriminate].
  destruct (int_of tc) as [tk|]; simpl; [|discriminate].
  intros [= <- <-]. simpl. auto 20.
Qed.

Lemma calculate_no_zero_division baseline start_time end_time tc ps :
  ps <> [] ->
  calculate baseline start_time end_time tc ps <> Raise ZeroDivisionError.
Proof.
  intros Hps. unfold calculate.
  pose proof (mean_no_zero_division ps Hps) as M.
  destruct (mean ps) as [raw|]; simpl; [|same_raise M].
  match goal with |- context [per_token ?x tc] =>
    pose proof (proj1 (per_token_spec x tc)) as J;
    destruct (per_token x tc) as [jpt|]; simpl; [|same_raise J] end.
  match goal with |- context [per_token ?x tc] =>
    pose proof (proj1 (per_token_spec x tc)) as S;
    destruct (per_token x tc) as [spt|]; simpl; [|same_raise S] end.
  pose proof (int_of_no_zero_division tc) as I.
  destruct (int_of tc); simpl; [discriminate | same_raise I].
Qed.

(** What a task that appends a row has computed. *)
Lemma run_task_inv m start_time end_time resp mt rw :
  run_task m start_time end_time resp = Appended mt rw ->
  power_samples mt <> []
  /\ power_samples mt =
     map snd (filter (fun x => in_window start_time end_time (fst x)) (queue m))
  /\ exists r tc,
       resp = Reply r /\ tokens_of r = Ok tc
       /\ calculate (baseline_watts m) start_time end_time tc (power_samples mt)
          = Ok (mt, rw).
Proof.
  unfold run_task. destruct resp as [|r]; [discriminate|].
  destruct (tokens_of r) as [tc|] eqn:T; [|discriminate].
  rewrite collect_spec. cbn [app].
  destruct (map snd _) as [|x ps] eqn:P; [discriminate|].
  destruct (calculate _ _ _ tc (x :: ps)) as [[mt' rw']|] eqn:C; [|discriminate].
  intros [= <- <-].
  destruct (calculate_inv _ _ _ _ _ _ _ C) as (_ & Hp & _).
  rewrite Hp. split; [discriminate|]. split; [reflexivity|].
  exists r, tc. auto.
Qed.

Lemma run_task_no_zero_division m start_time end_time resp :
  run_task m start_time end_time resp <> Caught ZeroDivisionError.
Proof.
  unfold run_task. destruct resp as [|r]; [discriminate|].
  pose proof (tokens_of_no_zero_division r) as T.
  destruct (tokens_of r) as [tc|]; [|congruence].
  destruct (collect _ _ _ _) as [|x ps]; [discriminate|].
  pose proof (calculate_no_zero_division (baseline_watts m) start_time end_time tc
                (x :: ps) ltac:(discriminate)) as C.
  destruct (calculate _ _ _ tc (x :: ps)) as [[mt rw]|]; [discriminate | congruence].
Qed.

(** The floor of the net power. *)
Lemma net_power_floor raw baseline :
  (net_power raw baseline = f0_1 \/ net_power raw baseline = fsub raw baseline)
  /\ fleb f0_1 (net_power raw baseline) = true
  /\ (is_nan (fsub raw baseline) = false ->
      fleb (fsub raw baseline) (net_power raw baseline) = true).
Proof. unfold net_power. apply max2_spec. reflexivity. Qed.

End ExperimentFacts.

(** ** Facts on the sibling script *)

Module SimpleFacts.
Import Py Re Monitor Props FloatFacts ReFacts MonitorFacts ExperimentFacts.
Import Simple.

(** Every text found by the power pattern converts. *)
Lemma floats_of_captured l :
  Forall (fun g => exists v, float_of_str g = Some v /\ nonneg v) l ->
  exists fs, floats_of l = Ok fs /\ Forall nonneg fs /\ length fs = length l.
Proof.
  induction 1 as [|g l (v & E & Hv) _ (fs & IH & Hfs & Hl)]; simpl.
  - exists []. repeat split; constructor.
  - rewrite E, IH. simpl. exists (v :: fs).
    repeat split; [constructor; assumption | simpl; congruence].
Qed.

Lemma findall_captured t :
  Forall (fun g => exists v, float_of_str g = Some v /\ nonneg v)
         (findall power_pattern t).
Proof.
  apply Forall_forall. intros g H.
  apply findall_from_inv in H. destruct H as (t' & r & M & ->).
  exact (captured_float _ _ M).
Qed.

Lemma findall_floats t :
  exists fs, floats_of (findall power_pattern t) = Ok fs /\ Forall nonneg fs
             /\ length fs = length (findall power_pattern t).
Proof. apply floats_of_captured, findall_captured. Qed.

Lemma sec_per_token_no_zero_division el tc :
  (if gt0 tc then q <- truediv el tc ;; Ok (round (PFloat q) 4) else Ok (PInt 0))
  <> Raise ZeroDivisionError.
Proof.
  destruct (gt0 tc) eqn:G; [|discriminate]. unfold truediv.
  destruct (gt0_divisor tc G) as [->|(d & -> & E)]; simpl; [discriminate|].
  rewrite E. simpl. discriminate.
Qed.

End SimpleFacts.

(** ** The claims *)

Import Py Re Monitor Props.
Import FloatFacts ReFacts MonitorFacts ExperimentFacts SimpleFacts.

(** C1. The claim asks for one sample per matching line, each with the
    value of its own line.  The reader loop searches the whole buffer at
    every newline and never drops the text it has matched, so the first
    reading is found again at each later newline: on two reading lines
    [5.00] then [6.00] the queue receives [5.0] twice and never [6.0], and
    on one reading line followed by a line without reading it receives two
    samples.  [findall] on the same texts, as the sibling script does,
    gives [5.0; 6.0] and one reading. *)
Theorem C1_reader_repeats_first_reading
  (now : nat -> float) (print_raises : nat -> bool) :
  map snd (data_queue (fst (run never now print_raises (pipe two_readings))))
    = [of_decimal 500 2; of_decimal 500 2]
  /\ Simple.floats_of (findall power_pattern two_readings)
    = Ok [of_decimal 500 2; of_decimal 600 2]
  /\ length (data_queue
               (fst (run never now print_raises (pipe reading_then_noise)))) = 2%nat
  /\ length (findall power_pattern reading_then_noise) = 1%nat.
Proof.
  repeat split; vm_compute; reflexivity.
Qed.

(** C2. The claim asks that a window without samples never yields a
    made-up power figure.  [run_experiment] skips such a task, but the
    sibling [run_with_power_monitoring] sets the average and the maximum to
    [0] when the power data holds no reading, and [main] then derives a net
    power of 0.1 W and an energy of 0.2 J for a 2 s call from them. *)
Theorem C2_simple_reports_zero_power :
  let reply := {| Simple.words := 10 ; Simple.eval_count := Some (PInt 20) |} in
  let m := {| Simple.tokens := 20 ;
              Simple.time_s := of_decimal 20 1 ;
              Simple.avg_power_w := PInt 0 ;
              Simple.max_power_w := PInt 0 ;
              Simple.sec_per_token := PFloat (of_decimal 1 1) |} in
  snd (Simple.run_with_power_monitoring (of_Z 0) (of_Z 2)
         (Simple.Reply reply) (Simple.Content (s "no reading here")))
    = Ok (Some m)
  /\ Simple.add_energy f4_0 m
    = Ok {| Simple.net_power_w := f0_1 ;
            Simple.joules := of_decimal 2 1 ;
            Simple.joules_per_token := PFloat (of_decimal 1 2) |}
  /\ Experiment.run_task
       {| queue := [(of_Z 3, of_Z 9)] ; baseline_watts := f3_0 |}
       (of_Z 0) (of_Z 2)
       (Experiment.Reply
          {| Experiment.words := 10 ; Experiment.eval_count := Some (PInt 20) |})
     = Experiment.NoSamples.
Proof.
  repeat split; vm_compute; reflexivity.
Qed.





(** C5, as stated, fails: [run] has no [finally] around its loop.  On a
    pipe that delivers one reading line and then raises at the next read,
    with standard output closed, the print of the [except] clause raises
    in its turn, the exception leaves [run], and the calls made are the
    spawn and one put: [terminate] is not among them. *)
Lemma C5_counterexample : ~ always_terminated.
Proof.
  intros H.
  specialize (H never midnight closed_stdout (pipe (line "5.00") ++ [ReadRaises])).
  vm_compute in H. destruct H as [H|[H|[]]]; discriminate.
Qed.

(** C5, amended.  [process.terminate()] is the statement after the loop.
    When the loop is left by its test (stop request) or by a [break] (end
    of stream, or an [Exception] caught by the [except] clause whose print
    returns), the thread has spawned the subprocess first, only put
    samples and printed in between, and calls [terminate] last.  When an
    exception leaves the loop it leaves [run] too, and [terminate] is not
    called: this is the case exactly of a read that raises outside
    [Exception], and of a read that raises an [Exception] while the print
    of the handler raises.  So with reads that raise nothing outside
    [Exception] and a print that never raises, every run ends with
    [terminate]. *)
Theorem C5_terminate_follows_loop_exits :
  (forall stop_set now print_raises stdout,
     snd (run stop_set now print_raises stdout) <> Escaped ->
     exists tr,
       effects (fst (run stop_set now print_raises stdout))
       = Popen :: tr ++ [Terminate]
       /\ Forall inner tr)
  /\ (forall stop_set now print_raises stdout,
        snd (run stop_set now print_raises stdout) = Escaped ->
        ~ In Terminate (effects (fst (run stop_set now print_raises stdout)))
        /\ (In ReadRaisesBase stdout
            \/ (In ReadRaises stdout /\ exists j, print_raises j = true)))
  /\ (forall stop_set now print_raises stdout,
        ~ In ReadRaisesBase stdout ->
        (forall j, print_raises j = false) ->
        exists tr,
          effects (fst (run stop_set now print_raises stdout))
          = Popen :: tr ++ [Terminate]
          /\ Forall inner tr)
  /\ run at_once midnight never (pipe (line "5.00"))
     = ({| buffer := [] ; data_queue := [] ; effects := [Popen; Terminate] |},
        StopRequested)
  /\ (let x := (fzero, of_decimal 500 2) in
      snd (run never midnight never (pipe (line "5.00"))) = EndOfStream
      /\ effects (fst (run never midnight never (pipe (line "5.00"))))
         = [Popen; Put x; Terminate]
      /\ snd (run never midnight never (pipe (line "5.00") ++ [ReadRaises]))
         = Failed
      /\ effects (fst (run never midnight never
                         (pipe (line "5.00") ++ [ReadRaises])))
         = [Popen; Put x; PrintError; Terminate]
      /\ snd (run never midnight closed_stdout
                (pipe (line "5.00") ++ [ReadRaises]))
         = Escaped
      /\ effects (fst (run never midnight closed_stdout
                         (pipe (line "5.00") ++ [ReadRaises])))
         = [Popen; Put x]
      /\ snd (run never midnight never
                (pipe (line "5.00") ++ [ReadRaisesBase]))
         = Escaped
      /\ effects (fst (run never midnight never
                         (pipe (line "5.00") ++ [ReadRaisesBase])))
         = [Popen; Put x]).
Proof.
  assert (A : forall stop_set now print_raises stdout,
             snd (run stop_set now print_raises stdout) <> Escaped ->
             exists tr,
               effects (fst (run stop_set now print_raises stdout))
               = Popen :: tr ++ [Terminate]
               /\ Forall inner tr).
  { intros stop_set now print_raises stdout. unfold run.
    destruct (loop stop_set now print_raises 0 stdout _) as [st why] eqn:L.
    destruct (loop_effects _ _ _ _ _ _ _ _ L) as (tr & E & Htr).
    cbn [fst snd]. intros N. exists tr.
    rewrite (after_loop_effects _ _ N), E. split; [reflexivity | assumption]. }
  assert (B : forall stop_set now print_raises stdout,
             snd (run stop_set now print_raises stdout) = Escaped ->
             In ReadRaisesBase stdout
             \/ (In ReadRaises stdout /\ exists j, print_raises j = true)).
  { intros stop_set now print_raises stdout. unfold run.
    destruct (loop stop_set now print_raises 0 stdout _) as [st why] eqn:L.
    cbn [snd]. intros ->. exact (loop_escaped _ _ _ _ _ _ _ L). }
  split; [exact A|]. split; [|split].
  - intros stop_set now print_raises stdout H. split; [|exact (B _ _ _ _ H)].
    revert H. unfold run.
    destruct (loop stop_set now print_raises 0 stdout _) as [st why] eqn:L.
    destruct (loop_effects _ _ _ _ _ _ _ _ L) as (tr & E & Htr).
    cbn [fst snd]. intros ->. cbn [after_loop]. rewrite E.
    cbn [effects app]. intros [X|X]; [discriminate|].
    rewrite Forall_forall in Htr. exact (proj2 (Htr _ X) eq_refl).
  - intros stop_set now print_raises stdout N P. apply A. intros H.
    destruct (B _ _ _ _ H) as [X|[_ [j X]]]; [exact (N X)|].
    rewrite P in X. discriminate.
  - split; [vm_compute; reflexivity|].
    cbv zeta. repeat split; vm_compute; reflexivity.
Qed.

(** The amended C5 on a pipe that delivers one reading line and then
    raises an [Exception], with a print that works: the handler prints and
    [terminate] is the last call. *)
Lemma C5_witness :
  exists tr,
    effects (fst (run never midnight never (pipe (line "5.00") ++ [ReadRaises])))
    = Popen :: tr ++ [Terminate]
    /\ Forall inner tr.
Proof.
  apply (proj1 C5_terminate_follows_loop_exits).
  vm_compute. discriminate.
Defined.

(** C6. When the queue holds no sample at the end of the calibration
    sleep, [calibrate_baseline] returns normally with the baseline set to
    the default 3.0 W, a positive number, and an empty queue. *)
Theorem C6_default_baseline (m : monitor) :
  queue m = [] ->
  calibrate_baseline m = Ok {| queue := [] ; baseline_watts := f3_0 |}
  /\ fltb fzero f3_0 = true
  /\ float_of_str (s "3.0") = Some f3_0.
Proof.
  intros H. unfold calibrate_baseline. rewrite H. repeat split.
Qed.

(** C6 on a monitor whose queue is empty. *)
Lemma C6_witness :
  calibrate_baseline {| queue := [] ; baseline_watts := fzero |}
  = Ok {| queue := [] ; baseline_watts := f3_0 |}.
Proof.
  apply (C6_default_baseline {| queue := [] ; baseline_watts := fzero |}).
  reflexivity.
Defined.

(** C7, as stated, fails: a stream of 1001 characters without a newline
    leaves 1001 characters in the buffer, above the cap of 1000. *)
Lemma C7_counterexample : ~ buffer_always_capped.
Proof.
  intros H.
  specialize (H never (fun _ => fzero) never (pipe no_newline)).
  vm_compute in H. lia.
Qed.

(** C7, amended.  The buffer is cut only when a newline is processed: if
    the buffer with the newline exceeds 1000 characters it becomes its last
    500 characters, so after a newline it holds at most 1000 characters;
    any other character is appended without a cut.  Hence a stream that
    ends on a newline, read to its end, leaves at most 1000 characters. *)
Theorem C7_buffer_capped_at_newlines :
  (forall now i st c st',
     on_char now i st c = inl st' ->
     (c = newline ->
      (length (buffer st') <= cap)%nat
      /\ ((cap < length (buffer st ++ [c]))%nat ->
          buffer st' = last_chars keep (buffer st ++ [c])
          /\ length (buffer st') = keep)
      /\ ((length (buffer st ++ [c]) <= cap)%nat ->
          buffer st' = buffer st ++ [c]))
     /\ (c <> newline -> buffer st' = buffer st ++ [c]))
  /\ (forall now print_raises t,
        (length (buffer (fst (run never now print_raises (pipe (t ++ [newline])))))
         <= cap)%nat).
Proof.
  split.
  - intros now i st c st' H. rewrite (on_char_buffer _ _ _ _ _ H). split.
    + intros ->. rewrite Ascii.eqb_refl. split; [apply truncate_length|]. split.
      * apply truncate_long.
      * intros L. unfold truncate.
        destruct (Nat.ltb_spec cap (length (buffer st ++ [newline]))); [lia|reflexivity].
    + intros N. destruct (Ascii.eqb_spec c newline); [contradiction | reflexivity].
  - intros now print_raises t. unfold run.
    pose proof (loop_line_end now print_raises t 0
                  {| buffer := [] ; data_queue := [] ; effects := [Popen] |}) as L.
    change (fun _ : nat => false) with never in L.
    destruct (loop never now print_raises 0 (pipe (t ++ [newline])) _) as [st why].
    cbn [fst]. rewrite after_loop_buffer. exact L.
Qed.

(** The amended C7 on 1001 characters followed by a newline. *)
Lemma C7_witness :
  (length (buffer (fst (run never (fun _ => fzero) never
                          (pipe (no_newline ++ [newline]))))) <= cap)%nat.
Proof.
  apply (proj2 C7_buffer_capped_at_newlines).
Defined.

(** C8. When the queue holds samples at the end of the calibration sleep
    (fewer than 2^53 of them), [calibrate_baseline] sets the baseline to
    the sum of their watts, added in queue order, divided by their number,
    and empties the queue.  Readings 3.0, 3.2 and 2.8 give exactly 3.0. *)
Theorem C8_baseline_is_mean :
  (forall m,
     queue m <> [] ->
     Z.of_nat (length (queue m)) < 2 ^ 53 ->
     calibrate_baseline m
     = Ok {| queue := [] ;
             baseline_watts :=
               fdiv (sum (map snd (queue m)))
                    (of_Z (Z.of_nat (length (queue m)))) |})
  /\ (forall t1 t2 t3 b0,
        calibrate_baseline
          {| queue := [(t1, of_decimal 30 1); (t2, of_decimal 32 1);
                       (t3, of_decimal 28 1)] ;
             baseline_watts := b0 |}
        = Ok {| queue := [] ; baseline_watts := of_decimal 30 1 |}).
Proof.
  split.
  - intros m Hq Hlen. unfold calibrate_baseline.
    rewrite drain_readings_spec. cbn [app].
    destruct (queue m) as [|x q] eqn:Q; [congruence|].
    cbn [map]. rewrite mean_small.
    + cbn [bind length map]. rewrite length_map. reflexivity.
    + cbn [length] in *. rewrite length_map. split; [lia | exact Hlen].
  - intros t1 t2 t3 b0. vm_compute. reflexivity.
Qed.

(** C8 on the readings 4.2 and 4.5, whose mean is 4.35. *)
Lemma C8_witness :
  calibrate_baseline
    {| queue := [(of_Z 1, of_decimal 42 1); (of_Z 2, of_decimal 45 1)] ;
       baseline_watts := fzero |}
  = Ok {| queue := [] ; baseline_watts := of_decimal 435 2 |}.
Proof.
  rewrite (proj1 C8_baseline_is_mean); [| discriminate | vm_compute; reflexivity].
  vm_compute. reflexivity.
Defined.

(** C9. Every text captured by the power pattern is a decimal literal
    without sign, so [float] converts it to a number that is not negative.
    Hence the reader loop never leaves through a failed conversion, every
    watts value it queues is at least zero, and so are the readings of the
    sibling script, the baselines and the raw averages computed from such
    samples. *)
Theorem C9_readings_not_negative :
  (forall b r,
     search power_pattern b = Some r ->
     decimal_literal (group1 r)
     /\ exists v, float_of_str (group1 r) = Some v /\ fleb fzero v = true)
  /\ (forall stop_set now print_raises stdout x,
        In x (data_queue (fst (run stop_set now print_raises stdout))) ->
        fleb fzero (snd x) = true)
  /\ (forall stop_set now print_raises stdout,
        snd (run stop_set now print_raises stdout) = Failed ->
        In ReadRaises stdout)
  /\ (forall t,
        exists fs, Simple.floats_of (findall power_pattern t) = Ok fs
                   /\ Forall (fun v => fleb fzero v = true) fs)
  /\ (forall m m',
        Forall (fun x => fleb fzero (snd x) = true) (queue m) ->
        calibrate_baseline m = Ok m' ->
        fleb fzero (baseline_watts m') = true)
  /\ (forall m start_time end_time resp mt rw,
        Forall (fun x => fleb fzero (snd x) = true) (queue m) ->
        Experiment.run_task m start_time end_time resp = Experiment.Appended mt rw ->
        fleb fzero (Experiment.avg_power_raw mt) = true)
  /\ (forall stdout b,
        Simple.get_baseline_power stdout = Ok b -> fleb fzero b = true).
Proof.
  split; [|split; [|split; [|split; [|split; [|split]]]]].
  - intros b r H. split.
    + apply search_inv in H. destruct H as (t' & H).
      exact (match_here_power _ _ H).
    + exact (search_float _ _ H).
  - intros stop_set now print_raises stdout x. unfold run.
    destruct (loop stop_set now print_raises 0 stdout _) as [st why] eqn:L.
    cbn [fst]. rewrite after_loop_queue. intros Hx.
    pose proof (loop_queue _ _ _ _ _ _ _ _ L (Forall_nil _)) as Q.
    rewrite Forall_forall in Q. exact (Q x Hx).
  - intros stop_set now print_raises stdout. unfold run.
    destruct (loop stop_set now print_raises 0 stdout _) as [st why] eqn:L.
    cbn [snd]. intros ->. exact (loop_failed _ _ _ _ _ _ _ L).
  - intros t. destruct (findall_floats t) as (fs & E & H & _). eauto.
  - intros m m' Hq. unfold calibrate_baseline.
    rewrite drain_readings_spec. cbn [app].
    assert (Hr : Forall nonneg (map snd (queue m))).
    { apply Forall_map. exact Hq. }
    destruct (map snd (queue m)) as [|x rs] eqn:R.
    + simpl. intros [= <-]. reflexivity.
    + destruct (mean (x :: rs)) as [b|] eqn:M; simpl; [|discriminate].
      intros [= <-]. exact (mean_nonneg _ _ Hr M).
  - intros m start_time end_time resp mt rw Hq H.
    destruct (run_task_inv _ _ _ _ _ _ H) as (_ & Hp & r & tc & _ & _ & C).
    destruct (calculate_inv _ _ _ _ _ _ _ C) as (_ & _ & _ & Hm & _).
    apply (mean_nonneg (Experiment.power_samples mt)); [|exact Hm].
    rewrite Hp. apply Forall_map.
    apply Forall_forall. intros x Hx. apply filter_In in Hx.
    rewrite Forall_forall in Hq. apply Hq, Hx.
  - intros stdout b. unfold Simple.get_baseline_power.
    destruct (findall_floats stdout) as (fs & E & Hfs & _).
    destruct (findall power_pattern stdout) as [|g gs].
    + intros [= <-]. reflexivity.
    + rewrite E. simpl. intros M. exact (mean_nonneg _ _ Hfs M).
Qed.

(** C9 on a reading line of 5.00 W. *)
Lemma C9_witness :
  exists v, float_of_str (s "5.00") = Some v /\ fleb fzero v = true.
Proof.
  apply (proj2 (proj1 C9_readings_not_negative (line "5.00")
                  {| group1 := s "5.00" ; rest := [newline] |} eq_refl)).
Defined.

(** C10. A per-token metric is the quotient by the token count only when
    the count is positive, and then the divisor is not zero; otherwise, so
    in particular when the count is zero, it is the integer 0.  No task of
    [run_experiment] and no call of the sibling script ends on a division
    by zero, and the rows carry these metrics rounded to four decimals. *)
Theorem C10_per_token_never_divides_by_zero :
  (forall x tc,
     Experiment.per_token x tc <> Raise ZeroDivisionError
     /\ (gt0 tc = false -> Experiment.per_token x tc = Ok (PInt 0))
     /\ (eq0 tc = true -> Experiment.per_token x tc = Ok (PInt 0))
     /\ (gt0 tc = true ->
         Experiment.per_token x tc = Raise OverflowError
         \/ exists d, to_float tc = Ok d /\ feqb d fzero = false
                      /\ Experiment.per_token x tc = Ok (PFloat (fdiv x d))))
  /\ (forall m start_time end_time resp,
        Experiment.run_task m start_time end_time resp
        <> Experiment.Caught ZeroDivisionError)
  /\ (forall m start_time end_time resp mt rw,
        Experiment.run_task m start_time end_time resp = Experiment.Appended mt rw ->
        Experiment.per_token (Experiment.total_energy_joules mt)
                             (Experiment.token_count mt)
          = Ok (Experiment.joules_per_token mt)
        /\ Experiment.per_token (Experiment.elapsed mt) (Experiment.token_count mt)
          = Ok (Experiment.sec_per_token mt)
        /\ Experiment.Joules_Per_Token rw = round (Experiment.joules_per_token mt) 4
        /\ Experiment.Sec_Per_Token rw = round (Experiment.sec_per_token mt) 4
        /\ (gt0 (Experiment.token_count mt) = false ->
            Experiment.Joules_Per_Token rw = PInt 0
            /\ Experiment.Sec_Per_Token rw = PInt 0))
  /\ (forall start_time end_time resp f,
        snd (Simple.run_with_power_monitoring start_time end_time resp f)
        <> Raise ZeroDivisionError)
  /\ (forall baseline_power m,
        Simple.add_energy baseline_power m <> Raise ZeroDivisionError
        /\ (Simple.tokens m <= 0 ->
            forall e, Simple.add_energy baseline_power m = Ok e ->
                      Simple.joules_per_token e = PInt 0)).
Proof.
  split; [|split; [|split; [|split]]].
  - intros x tc. destruct (per_token_spec x tc) as (A & B & C).
    repeat split; try assumption.
    intros E. apply B, eq0_not_gt0, E.
  - apply run_task_no_zero_division.
  - intros m start_time end_time resp mt rw H.
    destruct (run_task_inv _ _ _ _ _ _ H) as (_ & _ & r & tc & _ & _ & C).
    destruct (calculate_inv _ _ _ _ _ _ _ C)
      as (Ht & _ & _ & _ & _ & _ & J & S & _ & RJ & RS).
    rewrite Ht. split; [exact J|]. split; [exact S|].
    split; [exact RJ|]. split; [exact RS|]. intros G. split.
    + destruct (per_token_spec (Experiment.total_energy_joules mt) tc) as (_ & B & _).
      rewrite RJ. rewrite (B G) in J. injection J as <-. reflexivity.
    + destruct (per_token_spec (Experiment.elapsed mt) tc) as (_ & B & _).
      rewrite RS. rewrite (B G) in S. injection S as <-. reflexivity.
  - intros start_time end_time [|r] f; [discriminate|].
    unfold Simple.run_with_power_monitoring.
    destruct (Simple.tokens_of r) as [tc|]; [|discriminate].
    cbn [snd]. destruct (Simple.parse_power f) as [avg mx].
    pose proof (int_of_no_zero_division tc) as I.
    destruct (int_of tc) as [tk|]; simpl; [|same_raise I].
    pose proof (sec_per_token_no_zero_division (fsub end_time start_time) tc) as S.
    destruct (if gt0 tc then _ else _) as [spt|]; simpl; [discriminate | same_raise S].
  - intros baseline_power m. unfold Simple.add_energy, Simple.net_power.
    destruct (to_float (Simple.avg_power_w m)) as [a|] eqn:A; simpl.
    2:{ split; [|discriminate].
        destruct (Simple.avg_power_w m) as [z|x]; simpl in A; [|discriminate].
        pose proof (float_of_int_no_zero_division z) as F. rewrite A in F.
        same_raise F. }
    destruct (Z.ltb_spec 0 (Simple.tokens m)) as [P|N].
    + unfold truediv. destruct (gt0_divisor (PInt (Simple.tokens m))) as [->|(d & -> & E)].
      * simpl. apply Z.ltb_lt. exact P.
      * simpl. split; [discriminate|]. lia.
      * simpl. rewrite E. simpl. split; [discriminate|]. lia.
    + simpl. split; [discriminate|]. intros _ e [= <-]. reflexivity.
Qed.

(** C10 on a token count of zero. *)
Lemma C10_witness :
  Experiment.per_token (of_decimal 50 1) (PFloat fzero) = Ok (PInt 0).
Proof.
  apply (proj1 (proj2 (proj2 (proj1 C10_per_token_never_divides_by_zero
                                (of_decimal 50 1) (PFloat fzero))))).
  reflexivity.
Defined.

(** ** Facts on the language of the power pattern *)

Module PatternForward.
Import Py Re Monitor Props Shapes FloatFacts ReFacts.

Lemma digit_char a :
  is_digit a = true ->
  is_space a = false /\ Ascii.eqb a "." = false /\ Ascii.eqb a "W" = false.
Proof.
  destruct a as [[] [] [] [] [] [] [] []]; intros H;
    try discriminate H; repeat split.
Qed.

Lemma space_char a :
  is_space a = true ->
  is_digit a = false /\ Ascii.eqb a "." = false /\ Ascii.eqb a "W" = false.
Proof.
  destruct a as [[] [] [] [] [] [] [] []]; intros H;
    try discriminate H; repeat split.
Qed.

Lemma blank_all_in sp : Forall blank sp -> all_in Space sp.
Proof. apply Forall_impl. intros a [H _]. exact H. Qed.

Section Forward.
Variable c : cset.
Variable k : str -> option found.

(** A lazy run steps over characters on which the rest of the pattern
    cannot start. *)
Lemma lazy_skip pre t :
  Forall (fun a => accepts c a = true /\ forall u, k (a :: u) = None) pre ->
  lazy c k (pre ++ t) = lazy c k t.
Proof.
  induction 1 as [|a pre [A K] _ IH]; [reflexivity|].
  cbn [app lazy]. rewrite K, A. exact IH.
Qed.

Lemma lazy_now t r : k t = Some r -> lazy c k t = Some r.
Proof. intros H. destruct t; cbn [lazy]; rewrite H; reflexivity. Qed.

(** A greedy run takes a whole run of its set when the rest of the
    pattern matches behind it. *)
Lemma greedy_run pre t r :
  all_in c pre ->
  match t with [] => True | b :: _ => accepts c b = false end ->
  k t = Some r ->
  greedy c k (pre ++ t) = Some r.
Proof.
  intros Hp Ht Hk. induction Hp as [|a pre A _ IH].
  - destruct t as [|b t]; cbn [app greedy]; [exact Hk|]. rewrite Ht. exact Hk.
  - cbn [app greedy]. rewrite A, IH. reflexivity.
Qed.
End Forward.

Lemma exec_One c p m t :
  exec (One c :: p) m t =
  match t with
  | a :: t' => if accepts c a then exec p m t' else None
  | [] => None
  end.
Proof. reflexivity. Qed.

Lemma exec_LazyStar c p m t : exec (LazyStar c :: p) m t = lazy c (exec p m) t.
Proof. reflexivity. Qed.

Lemma exec_chars l p m t :
  exec (map (fun a => One (Chr a)) l ++ p) m (l ++ t) = exec p m t.
Proof.
  induction l as [|a l IH]; [reflexivity|].
  cbn [map app]. rewrite exec_One. cbn [accepts]. rewrite Ascii.eqb_refl. exact IH.
Qed.

Lemma exec_chars_inv l p m t r :
  exec (map (fun a => One (Chr a)) l ++ p) m t = Some r ->
  exists t', t = l ++ t' /\ exec p m t' = Some r.
Proof.
  revert t. induction l as [|a l IH]; intros t H.
  - exists t. split; [reflexivity | exact H].
  - cbn [map app] in H. rewrite exec_One in H.
    destruct t as [|b t]; [discriminate|]. cbn [accepts] in H.
    destruct (Ascii.eqb_spec b a) as [->|]; [|discriminate].
    destruct (IH _ H) as (t' & -> & H'). exists t'. split; [reflexivity | exact H'].
Qed.

Lemma power_pattern_heading :
  power_pattern = map (fun a => One (Chr a)) heading ++ tail_nodes.
Proof. reflexivity. Qed.

(** *** From the text to the match *)

Lemma exec_after_group m sp2 u :
  Forall blank sp2 ->
  exec after_group m (sp2 ++ "W"%char :: u)
  = Some {| group1 := captured m ; rest := u |}.
Proof.
  intros B. unfold after_group. rewrite exec_Star.
  apply greedy_run; [apply blank_all_in, B | reflexivity | reflexivity].
Qed.

Lemma head_not_digit sp2 u :
  Forall blank sp2 ->
  match sp2 ++ "W"%char :: u with [] => True | b :: _ => accepts Digit b = false end.
Proof.
  destruct 1 as [|a rest [A _] _]; [reflexivity|]. cbn [app accepts].
  apply (space_char a A).
Qed.

Lemma head_not_point sp2 u :
  Forall blank sp2 ->
  exists b v, sp2 ++ "W"%char :: u = b :: v /\ Ascii.eqb b "." = false.
Proof.
  destruct 1 as [|a rest [A _] _]; cbn [app]; eexists; eexists; split; try reflexivity.
  apply (space_char a A).
Qed.

(** The capture group on a decimal literal followed by blanks and the
    unit. *)
Lemma exec_group_forward m w sp2 u :
  decimal_literal w -> Forall blank sp2 ->
  exec (GroupOpen :: group_nodes ++ GroupClose :: after_group) m
       (w ++ sp2 ++ "W"%char :: u)
  = Some {| group1 := w ; rest := u |}.
Proof.
  intros W B. rewrite exec_GroupOpen. cbn [app group_nodes].
  set (Z := sp2 ++ "W"%char :: u).
  set (m1 := {| opened := w ++ Z ; captured := captured m |}).
  assert (Close : exec (GroupClose :: after_group) m1 Z
                  = Some {| group1 := w ; rest := u |}).
  { rewrite exec_GroupClose. unfold Z. rewrite exec_after_group by assumption.
    cbn [captured opened m1]. fold Z. rewrite firstn_consumed. reflexivity. }
  assert (Star_Z : exec (Star Digit :: GroupClose :: after_group) m1 Z
                   = Some {| group1 := w ; rest := u |}).
  { rewrite exec_Star. apply (greedy_run _ _ [] Z); [constructor| |exact Close].
    apply head_not_digit, B. }
  destruct W as [a ds A D|a ds1 ds2 A D1 D2].
  - cbn [app]. rewrite exec_Plus. cbn [accepts]. rewrite A.
    apply greedy_run; [exact D | apply head_not_digit, B |].
    rewrite exec_Opt.
    destruct (head_not_point sp2 u B) as (b & v & E & N). fold Z in E.
    rewrite E. cbn [accepts]. rewrite N. rewrite <- E. exact Star_Z.
  - rewrite <- app_assoc. cbn [app]. rewrite exec_Plus. cbn [accepts]. rewrite A.
    apply greedy_run; [exact D1 | reflexivity |].
    rewrite exec_Opt. cbn [accepts]. rewrite Ascii.eqb_refl.
    rewrite exec_Star.
    rewrite (greedy_run Digit _ ds2 Z {| group1 := (a :: ds1) ++ "."%char :: ds2 ; rest := u |});
      [reflexivity | exact D2 | apply head_not_digit, B |].
    rewrite exec_GroupClose. unfold Z. rewrite exec_after_group by assumption.
    cbn [captured opened m1]. fold Z.
    replace (((a :: ds1) ++ "."%char :: ds2) ++ Z)
      with (((a :: ds1) ++ "."%char :: ds2) ++ Z) by reflexivity.
    rewrite firstn_consumed. reflexivity.
Qed.

(** A reading at the head of a text is matched, its number is captured
    and the match ends behind the unit. *)
Lemma match_here_reading mid sp1 w sp2 u :
  one_line mid sp1 w sp2 ->
  match_here power_pattern (reading mid sp1 w sp2 ++ u)
  = Some {| group1 := w ; rest := u |}.
Proof.
  intros [Hmid Hne Hsp1 Hw Hsp2].
  unfold match_here, reading. rewrite power_pattern_heading.
  rewrite <- app_assoc. rewrite exec_chars.
  unfold tail_nodes. cbn [app]. rewrite exec_LazyStar.
  rewrite <- app_assoc. rewrite lazy_skip.
  2:{ revert Hmid. apply Forall_impl. intros a [A N]. split; [exact A|].
      intros v. rewrite exec_One. cbn [accepts].
      destruct (Ascii.eqb_spec a ":"); [contradiction | reflexivity]. }
  apply lazy_now. cbn [app]. rewrite exec_One. cbn [accepts]. rewrite Ascii.eqb_refl.
  destruct sp1 as [|b sp1]; [contradiction|]. inversion Hsp1 as [|? ? [Bb _] Hsp1']; subst.
  cbn [app]. rewrite exec_Plus. cbn [accepts]. rewrite Bb.
  rewrite <- !app_assoc.
  apply greedy_run.
  - apply blank_all_in, Hsp1'.
  - destruct Hw as [a ds A _|a ds1 ds2 A _ _]; cbn [app accepts]; apply (digit_char a A).
  - cbn [app]. apply (exec_group_forward _ w sp2 u Hw Hsp2).
Qed.

End PatternForward.

Module PatternInverse.
Import Py Re Monitor Props Shapes FloatFacts ReFacts PatternForward.

(** *** From the match to the text *)

Lemma exec_after_group_inv m t r :
  exec after_group m t = Some r ->
  exists sp2, t = sp2 ++ "W"%char :: rest r /\ all_in Space sp2
              /\ group1 r = captured m.
Proof.
  unfold after_group. rewrite exec_Star. intros H.
  apply greedy_inv in H. destruct H as (sp2 & t' & -> & S & H).
  rewrite exec_One in H. destruct t' as [|b t'']; [discriminate|].
  cbn [accepts] in H. destruct (Ascii.eqb_spec b "W") as [->|]; [|discriminate].
  injection H as <-. exists sp2. repeat split. exact S.
Qed.

Lemma exec_group_inv m t r :
  exec (GroupOpen :: group_nodes ++ GroupClose :: after_group) m t = Some r ->
  exists sp2, t = group1 r ++ sp2 ++ "W"%char :: rest r /\ all_in Space sp2
              /\ decimal_literal (group1 r).
Proof.
  cbn [app group_nodes]. rewrite exec_GroupOpen, exec_Plus. intros H.
  destruct t as [|a t1]; [discriminate|].
  destruct (accepts Digit a) eqn:A; [|discriminate].
  apply greedy_inv in H. destruct H as (ds1 & t2 & -> & D1 & H).
  set (m1 := {| opened := a :: ds1 ++ t2 ; captured := captured m |}) in *.
  assert (Star_case : forall dot t3,
             t2 = dot ++ t3 ->
             exec (Star Digit :: GroupClose :: after_group) m1 t3 = Some r ->
             exists ds2 sp2,
               all_in Digit ds2 /\ all_in Space sp2
               /\ group1 r = a :: ds1 ++ dot ++ ds2
               /\ t3 = ds2 ++ sp2 ++ "W"%char :: rest r).
  { intros dot t3 E G. rewrite exec_Star in G. apply greedy_inv in G.
    destruct G as (ds2 & t4 & -> & D2 & H4).
    rewrite exec_GroupClose in H4. apply exec_after_group_inv in H4.
    destruct H4 as (sp2 & -> & S2 & C).
    exists ds2, sp2. repeat split; try assumption.
    rewrite C. cbn [captured opened m1]. rewrite E.
    replace (a :: ds1 ++ dot ++ ds2 ++ sp2 ++ "W"%char :: rest r)
      with ((a :: ds1 ++ dot ++ ds2) ++ sp2 ++ "W"%char :: rest r).
    - apply firstn_consumed.
    - cbn [app]. rewrite <- !app_assoc. reflexivity. }
  rewrite exec_Opt in H.
  assert (No_dot : exec (Star Digit :: GroupClose :: after_group) m1 t2 = Some r ->
            exists sp2, a :: ds1 ++ t2 = group1 r ++ sp2 ++ "W"%char :: rest r
                        /\ all_in Space sp2 /\ decimal_literal (group1 r)).
  { intros G. destruct (Star_case [] t2 eq_refl G) as (ds2 & sp2 & D2 & S2 & -> & ->).
    exists sp2. cbn [app]. split; [rewrite <- app_assoc; reflexivity|].
    split; [assumption|]. apply literal_plain; [assumption|].
    apply Forall_app; split; assumption. }
  destruct t2 as [|b t3]; [auto|].
  destruct (accepts (Chr ".") b) eqn:B; [|auto].
  destruct (exec (Star Digit :: GroupClose :: after_group) m1 t3) as [r'|] eqn:G; [|auto].
  injection H as <-.
  cbn [accepts] in B. apply Ascii.eqb_eq in B. subst b.
  destruct (Star_case ["."%char] t3 eq_refl G) as (ds2 & sp2 & D2 & S2 & E & ->).
  exists sp2. rewrite E. split.
  - cbn [app]. rewrite <- !app_assoc. reflexivity.
  - split; [assumption|].
    replace (a :: ds1 ++ ["."%char] ++ ds2) with ((a :: ds1) ++ "."%char :: ds2) by reflexivity.
    apply literal_point; assumption.
Qed.

(** A match of the power pattern spells a reading. *)
Lemma match_here_inv t r :
  match_here power_pattern t = Some r ->
  exists mid sp1 sp2,
    t = reading mid sp1 (group1 r) sp2 ++ rest r
    /\ all_in Dot mid /\ sp1 <> [] /\ all_in Space sp1 /\ all_in Space sp2
    /\ decimal_literal (group1 r).
Proof.
  unfold match_here. rewrite power_pattern_heading. intros H.
  apply exec_chars_inv in H. destruct H as (t1 & -> & H).
  unfold tail_nodes in H. cbn [app] in H. rewrite exec_LazyStar in H.
  apply lazy_inv in H. destruct H as (mid & t2 & -> & M & H).
  rewrite exec_One in H. destruct t2 as [|b t3]; [discriminate|].
  cbn [accepts] in H. destruct (Ascii.eqb_spec b ":") as [->|]; [|discriminate].
  rewrite exec_Plus in H. destruct t3 as [|c t4]; [discriminate|].
  destruct (accepts Space c) eqn:C; [|discriminate].
  apply greedy_inv in H. destruct H as (sp & t5 & -> & S1 & H).
  apply exec_group_inv in H. destruct H as (sp2 & -> & S2 & W).
  exists mid, (c :: sp), sp2. split.
  - unfold reading. cbn [app]. rewrite <- !app_assoc. cbn [app].
    rewrite <- !app_assoc. reflexivity.
  - repeat split; try assumption; [discriminate|]. constructor; assumption.
Qed.

Lemma search_where p t r :
  search p t = Some r ->
  exists pre t', t = pre ++ t' /\ match_here p t' = Some r.
Proof.
  induction t as [|a t IH]; cbn [search].
  - destruct (match_here p []) eqn:M; [|discriminate].
    intros [= <-]. exists [], []. auto.
  - destruct (match_here p (a :: t)) eqn:M.
    + intros [= <-]. exists [], (a :: t). auto.
    + intros H. destruct (IH H) as (pre & t' & -> & H').
      exists (a :: pre), t'. auto.
Qed.

(** *** Texts without a match *)

Lemma match_here_heading t r :
  match_here power_pattern t = Some r -> exists t', t = heading ++ t'.
Proof.
  unfold match_here. rewrite power_pattern_heading. intros H.
  apply exec_chars_inv in H. destruct H as (t1 & -> & _). eauto.
Qed.

Lemma match_here_quiet_head a t :
  a <> "I"%char -> match_here power_pattern (a :: t) = None.
Proof.
  intros N. destruct (match_here power_pattern (a :: t)) as [r|] eqn:M; [|reflexivity].
  apply match_here_heading in M. destruct M as (t' & E).
  injection E as -> _. contradiction.
Qed.

Lemma match_here_nil : match_here power_pattern [] = None.
Proof. reflexivity. Qed.

(** A search steps over a text in which no match can start. *)
Lemma search_quiet pre t :
  quiet pre -> search power_pattern (pre ++ t) = search power_pattern t.
Proof.
  induction 1 as [|a pre N _ IH]; [reflexivity|].
  cbn [app search]. rewrite (match_here_quiet_head a _ N). exact IH.
Qed.

Lemma search_quiet_none t : quiet t -> search power_pattern t = None.
Proof.
  intros Q. rewrite <- (app_nil_r t), (search_quiet t [] Q). reflexivity.
Qed.

(** *** [findall] on a text of readings *)

Lemma findall_from_skip p u v :
  findall_from p (length u) (u ++ v) = findall_from p 0 v.
Proof.
  induction u as [|a u IH]; [reflexivity|]. cbn [length app findall_from]. exact IH.
Qed.

Lemma findall_quiet pre t :
  quiet pre -> findall power_pattern (pre ++ t) = findall power_pattern t.
Proof.
  unfold findall. induction 1 as [|a pre N _ IH]; [reflexivity|].
  cbn [app findall_from]. rewrite (match_here_quiet_head a _ N). exact IH.
Qed.

Lemma findall_quiet_nil t : quiet t -> findall power_pattern t = [].
Proof.
  intros Q. rewrite <- (app_nil_r t), (findall_quiet t [] Q). reflexivity.
Qed.

Lemma findall_reading mid sp1 w sp2 u :
  one_line mid sp1 w sp2 ->
  findall power_pattern (reading mid sp1 w sp2 ++ u)
  = w :: findall power_pattern u.
Proof.
  intros L. unfold findall.
  pose proof (match_here_reading mid sp1 w sp2 u L) as M.
  remember (reading mid sp1 w sp2) as R eqn:ER.
  destruct R as [|a R']; [discriminate ER|].
  cbn [app findall_from] in *. rewrite M. cbn [group1 rest]. f_equal.
  replace (length (a :: R' ++ u) - length u - 1)%nat with (length R').
  - apply findall_from_skip.
  - cbn [length]. rewrite length_app. lia.
Qed.

Lemma findall_entries es trailing :
  Forall well_formed es -> quiet trailing ->
  findall power_pattern (concat (map render es) ++ trailing) = map number es.
Proof.
  intros H Q. induction H as [|e es [Qe Le] _ IH]; cbn [map concat app].
  - apply findall_quiet_nil, Q.
  - unfold render at 1. rewrite <- !app_assoc.
    rewrite (findall_quiet _ _ Qe). rewrite (findall_reading _ _ _ _ _ Le).
    rewrite IH. reflexivity.
Qed.

End PatternInverse.

(** ** Further facts on the reader loop *)

Module ReaderSteps.
Import Py Re Monitor Props Shapes FloatFacts ReFacts MonitorFacts.
Import PatternForward PatternInverse.

Lemma with_buffer_twice st b b' :
  with_buffer (with_buffer st b) b' = with_buffer st b'.
Proof. reflexivity. Qed.

Lemma with_buffer_same st : with_buffer st (buffer st) = st.
Proof. destruct st; reflexivity. Qed.

Lemma truncate_short b : (length b <= cap)%nat -> truncate b = b.
Proof.
  intros H. unfold truncate. destruct (Nat.ltb_spec cap (length b)); [lia | reflexivity].
Qed.

(** What [truncate] keeps is the end of the text. *)
Lemma truncate_suffix b : exists dropped, b = dropped ++ truncate b.
Proof.
  unfold truncate. destruct (cap <? length b)%nat.
  - exists (firstn (length b - keep) b). unfold last_chars.
    symmetry. apply firstn_skipn.
  - exists []. reflexivity.
Qed.

Section Reader.
Variable now : nat -> float.
Variable print_raises : nat -> bool.

Lemma on_char_plain i st c :
  Ascii.eqb c newline = false ->
  on_char now i st c = inl (with_buffer st (buffer st ++ [c])).
Proof. intros H. unfold on_char. rewrite H. reflexivity. Qed.

Lemma on_char_miss i st :
  search power_pattern (buffer st ++ [newline]) = None ->
  on_char now i st newline
  = inl (with_buffer st (truncate (buffer st ++ [newline]))).
Proof. intros H. unfold on_char. rewrite Ascii.eqb_refl, H. reflexivity. Qed.

Lemma on_char_hit i st r v :
  search power_pattern (buffer st ++ [newline]) = Some r ->
  float_of_str (group1 r) = Some v ->
  on_char now i st newline
  = inl (put (now i, v) st (truncate (buffer st ++ [newline]))).
Proof. intros H F. unfold on_char. rewrite Ascii.eqb_refl, H, F. reflexivity. Qed.

Lemma loop_never_char i c stdout st :
  loop never now print_raises i (Char c :: stdout) st =
  match on_char now i st c with
  | inl st' => loop never now print_raises (S i) stdout st'
  | inr st' => on_exception print_raises i st'
  end.
Proof. reflexivity. Qed.

(** Characters of one line are appended to the buffer. *)
Lemma loop_plain t :
  all_in Dot t ->
  forall i st stdout,
  loop never now print_raises i (pipe t ++ stdout) st
  = loop never now print_raises (i + length t) stdout (with_buffer st (buffer st ++ t)).
Proof.
  induction 1 as [|c t C _ IH]; intros i st stdout.
  - cbn [pipe map app length]. rewrite Nat.add_0_r, app_nil_r, with_buffer_same.
    reflexivity.
  - cbn [pipe map app length]. rewrite loop_never_char.
    cbn [accepts] in C. apply negb_true_iff in C.
    rewrite (on_char_plain i st c C).
    change (map Char t) with (pipe t). rewrite IH.
    rewrite with_buffer_twice. cbn [buffer with_buffer].
    rewrite <- app_assoc. cbn [app]. f_equal. lia.
Qed.

Lemma quiet_app u v : quiet u -> quiet v -> quiet (u ++ v).
Proof. intros U V. apply Forall_app. split; assumption. Qed.

Lemma quiet_truncate b : quiet b -> quiet (truncate b).
Proof.
  intros Q. destruct (truncate_suffix b) as (d & E). rewrite E in Q.
  apply Forall_app in Q. apply Q.
Qed.

Lemma truncate_le b : (length (truncate b) <= length b)%nat.
Proof.
  destruct (truncate_suffix b) as (d & E). rewrite E at 2. rewrite length_app. lia.
Qed.

(** A text in which no match can start only moves the buffer. *)
Lemma loop_quiet pre :
  quiet pre ->
  forall i st stdout,
  quiet (buffer st) ->
  exists b, quiet b
            /\ (length b <= length (buffer st) + length pre)%nat
            /\ loop never now print_raises i (pipe pre ++ stdout) st
               = loop never now print_raises (i + length pre) stdout (with_buffer st b).
Proof.
  induction 1 as [|c pre N _ IH]; intros i st stdout Q.
  - exists (buffer st). cbn [pipe map app length].
    rewrite !Nat.add_0_r, with_buffer_same. split; [assumption|]. split; [lia | reflexivity].
  - cbn [pipe map app length]. rewrite loop_never_char.
    assert (Qc : quiet (buffer st ++ [c])).
    { apply quiet_app; [assumption|]. constructor; [assumption | constructor]. }
    destruct (Ascii.eqb_spec c newline) as [->|Hc].
    + rewrite on_char_miss by (apply search_quiet_none, Qc).
      destruct (IH (S i) (with_buffer st (truncate (buffer st ++ [newline]))) stdout)
        as (b & Qb & Lb & E).
      { cbn [buffer with_buffer]. apply quiet_truncate, Qc. }
      exists b. split; [assumption|]. split.
      * cbn [buffer with_buffer] in Lb.
        pose proof (truncate_le (buffer st ++ [newline])) as T.
        rewrite length_app in T. cbn [length] in T. lia.
      * change (map Char pre) with (pipe pre). rewrite E, with_buffer_twice.
        f_equal. lia.
    + rewrite on_char_plain by (apply Ascii.eqb_neq, Hc).
      destruct (IH (S i) (with_buffer st (buffer st ++ [c])) stdout)
        as (b & Qb & Lb & E).
      { exact Qc. }
      exists b. split; [assumption|]. split.
      * cbn [buffer with_buffer] in Lb. rewrite length_app in Lb.
        cbn [length] in Lb. lia.
      * change (map Char pre) with (pipe pre). rewrite E, with_buffer_twice.
        f_equal. lia.
Qed.

End Reader.

(** A reading on one line holds no newline. *)
Lemma reading_plain mid sp1 w sp2 :
  one_line mid sp1 w sp2 -> all_in Dot (reading mid sp1 w sp2).
Proof.
  intros [Hmid _ Hsp1 Hw Hsp2]. unfold reading, all_in.
  assert (D : forall l, all_in Digit l -> Forall (fun a => accepts Dot a = true) l).
  { apply Forall_impl. intros a A. cbn [accepts] in *.
    destruct a as [[] [] [] [] [] [] [] []]; try discriminate A; reflexivity. }
  assert (B : forall l, Forall blank l -> Forall (fun a => accepts Dot a = true) l).
  { apply Forall_impl. intros a [_ A]. cbn [accepts].
    apply negb_true_iff, Ascii.eqb_neq, A. }
  repeat (apply Forall_app; split).
  - unfold heading. repeat constructor.
  - revert Hmid. apply Forall_impl. intros a [A _]. exact A.
  - constructor; [reflexivity|].
    repeat (apply Forall_app; split).
    + apply B, Hsp1.
    + destruct Hw as [a ds A Ds|a ds1 ds2 A D1 D2].
      * apply D. constructor; assumption.
      * apply Forall_app. split; [apply D; constructor; assumption|].
        constructor; [reflexivity | apply D, D2].
    + apply B, Hsp2.
    + repeat constructor.
Qed.

End ReaderSteps.

Module ReaderInvariants.
Import Py Re Monitor Props Shapes FloatFacts ReFacts MonitorFacts.
Import PatternForward PatternInverse ReaderSteps.

Lemma pipe_app u v : pipe (u ++ v) = pipe u ++ pipe v.
Proof. apply map_app. Qed.

Lemma search_now p t r : match_here p t = Some r -> search p t = Some r.
Proof. intros H. destruct t; cbn [search]; rewrite H; reflexivity. Qed.

(** The search in a buffer made of a text without match, a reading and
    anything behind it finds that reading. *)
Lemma search_reading b mid sp1 w sp2 u :
  quiet b -> one_line mid sp1 w sp2 ->
  search power_pattern (b ++ reading mid sp1 w sp2 ++ u)
  = Some {| group1 := w ; rest := u |}.
Proof.
  intros Q L. rewrite (search_quiet _ _ Q).
  apply search_now, match_here_reading, L.
Qed.

Section Reader.
Variable now : nat -> float.
Variable print_raises : nat -> bool.

(** While the buffer stays within the cap, every newline behind a reading
    queues the number of that reading again. *)
Lemma loop_repeat mid sp1 w sp2 v b :
  quiet b -> one_line mid sp1 w sp2 -> float_of_str w = Some v ->
  forall t i st u,
  buffer st = b ++ reading mid sp1 w sp2 ++ u ->
  (length (buffer st) + length t <= cap)%nat ->
  snd (loop never now print_raises i (pipe t) st) = EndOfStream
  /\ data_queue (fst (loop never now print_raises i (pipe t) st))
     = data_queue st ++ map (fun j => (now j, v)) (newline_indices i t).
Proof.
  intros Q L F. induction t as [|c t IH]; intros i st u B Len.
  - cbn. rewrite app_nil_r. split; reflexivity.
  - cbn [pipe map]. rewrite loop_never_char. cbn [length] in Len.
    cbn [newline_indices].
    destruct (Ascii.eqb_spec c newline) as [->|Hc].
    + rewrite (on_char_hit now i st {| group1 := w ; rest := u ++ [newline] |} v).
      * rewrite truncate_short by (rewrite length_app; cbn [length]; lia).
        destruct (IH (S i) (put (now i, v) st (buffer st ++ [newline])) (u ++ [newline]))
          as [E D].
        { cbn [buffer put]. rewrite B, <- !app_assoc. reflexivity. }
        { cbn [buffer put]. rewrite length_app. cbn [length]. lia. }
        split; [exact E|]. change (map Char t) with (pipe t). rewrite D.
        cbn [data_queue put map]. rewrite <- app_assoc. reflexivity.
      * rewrite B, <- !app_assoc. apply search_reading; assumption.
      * exact F.
    + rewrite on_char_plain by (apply Ascii.eqb_neq, Hc).
      destruct (IH (S i) (with_buffer st (buffer st ++ [c])) (u ++ [c])) as [E D].
      { cbn [buffer with_buffer]. rewrite B, <- !app_assoc. reflexivity. }
      { cbn [buffer with_buffer]. rewrite length_app. cbn [length]. lia. }
      split; [exact E|]. change (map Char t) with (pipe t). rewrite D. reflexivity.
Qed.

End Reader.

Section Invariants.
Variable stop_set : nat -> bool.
Variable now : nat -> float.
Variable print_raises : nat -> bool.

(** The samples the loop adds are stamped, in order, with the clock at
    increasing indices of reads that delivered a newline. *)
Lemma loop_stamps stdout :
  forall i st st' why,
  loop stop_set now print_raises i stdout st = (st', why) ->
  exists new js,
    data_queue st' = data_queue st ++ new
    /\ map fst new = map now js
    /\ StronglySorted lt js
    /\ Forall (fun j => (i <= j)%nat
                        /\ nth_error stdout (j - i) = Some (Char newline)) js.
Proof.
  induction stdout as [|rd stdout IH]; intros i st st' why; cbn [loop].
  - destruct (stop_set i); intros [= <- <-]; exists [], [];
      rewrite app_nil_r; repeat split; constructor.
  - destruct (stop_set i).
    { intros [= <- <-]. exists [], []. rewrite app_nil_r; repeat split; constructor. }
    destruct rd as [c| |].
    + destruct (on_char now i st c) as [st1|st1] eqn:E.
      * intros H. destruct (IH _ _ _ _ H) as (new & js & Q & T & Srt & P).
        assert (P' : Forall (fun j => (i <= j)%nat
                    /\ nth_error (Char c :: stdout) (j - i) = Some (Char newline)) js).
        { revert P. apply Forall_impl. intros j [Hj Hn]. split; [lia|].
          replace (j - i)%nat with (S (j - S i)) by lia. exact Hn. }
        destruct (on_char_effects _ _ _ _ _ E)
          as [[Eq _]|(r & w & Nl & _ & _ & _ & Eq & _)].
        -- exists new, js. rewrite Q, Eq. repeat split; assumption.
        -- exists ((now i, w) :: new), (i :: js). rewrite Q, Eq, <- app_assoc.
           split; [reflexivity|]. split; [cbn [map fst]; f_equal; exact T|].
           split.
           ++ constructor; [exact Srt|]. revert P. apply Forall_impl. intros j [Hj _]. lia.
           ++ constructor; [|exact P'].
              split; [lia|]. rewrite Nat.sub_diag. cbn [nth_error].
              apply Ascii.eqb_eq in Nl. subst c. reflexivity.
      * destruct (on_char_total now i st c) as (st2 & E2). congruence.
    + unfold on_exception. destruct (print_raises i); intros [= <- <-];
        exists [], []; cbn [data_queue print_error];
        rewrite app_nil_r; repeat split; constructor.
    + intros [= <- <-]. exists [], []. rewrite app_nil_r. repeat split; constructor.
Qed.

(** The buffer is a block of the text: what was in it, then what was
    read, less what was cut at the front and what was not read. *)
Lemma loop_buffer t :
  forall i st st' why,
  loop stop_set now print_raises i (pipe t) st = (st', why) ->
  exists dropped unread,
    buffer st ++ t = dropped ++ buffer st' ++ unread
    /\ (why = EndOfStream -> unread = []).
Proof.
  induction t as [|c t IH]; intros i st st' why; cbn [pipe map loop].
  - destruct (stop_set i); intros [= <- <-]; exists [], [];
      rewrite !app_nil_r; split; reflexivity.
  - destruct (stop_set i).
    { intros [= <- <-]. exists [], (c :: t). split; [reflexivity | discriminate]. }
    destruct (on_char now i st c) as [st1|st1] eqn:E.
    + intros H. destruct (IH _ _ _ _ H) as (d & un & Q & W).
      rewrite (on_char_buffer _ _ _ _ _ E) in Q.
      destruct (Ascii.eqb c newline).
      * destruct (truncate_suffix (buffer st ++ [c])) as (d0 & T).
        exists (d0 ++ d), un. split; [|exact W].
        replace (buffer st ++ c :: t) with ((buffer st ++ [c]) ++ t)
          by (rewrite <- app_assoc; reflexivity).
        rewrite T, <- !app_assoc. f_equal. rewrite <- Q. reflexivity.
      * exists d, un. split; [|exact W]. rewrite <- Q, <- app_assoc. reflexivity.
    + destruct (on_char_total now i st c) as (st2 & E2). congruence.
Qed.

(** A character that every match needs and that neither the buffer nor
    the text holds: nothing is queued. *)
Lemma loop_without c t :
  (forall b r, search power_pattern b = Some r -> In c b) ->
  ~ In c t ->
  forall i st st' why,
  ~ In c (buffer st) ->
  loop stop_set now print_raises i (pipe t) st = (st', why) ->
  data_queue st' = data_queue st /\ why <> Failed /\ why <> Escaped.
Proof.
  intros Need. induction t as [|a t IH]; intros Nt i st st' why Nb; cbn [pipe map loop].
  - destruct (stop_set i); intros [= <- <-]; repeat split; (reflexivity || discriminate).
  - destruct (stop_set i).
    { intros [= <- <-]. repeat split; (reflexivity || discriminate). }
    assert (Na : ~ In c (buffer st ++ [a])).
    { intros H. apply in_app_or in H. destruct H as [H|[H|[]]];
        [exact (Nb H) | apply Nt; left; exact H]. }
    destruct (on_char now i st a) as [st1|st1] eqn:E.
    + intros H.
      assert (N1 : ~ In c (buffer st1)).
      { rewrite (on_char_buffer _ _ _ _ _ E). destruct (Ascii.eqb a newline); [|exact Na].
        destruct (truncate_suffix (buffer st ++ [a])) as (d & T).
        intros Hin. apply Na. rewrite T. apply in_or_app. right. exact Hin. }
      destruct (IH (fun H' => Nt (or_intror H')) _ _ _ _ N1 H) as [Q W].
      split; [|exact W]. rewrite Q.
      destruct (on_char_effects _ _ _ _ _ E)
        as [[Eq _]|(r & w & _ & Sr & _)]; [exact Eq|].
      exfalso. exact (Na (Need _ _ Sr)).
    + destruct (on_char_total now i st a) as (st2 & E2). congruence.
Qed.

(** A stop request seen before read [k] leaves what the first [k] reads
    alone would have left, and an exception left the one loop when it left
    the other. *)
Lemma loop_stop k :
  forall stdout i st,
  stop_set (i + k)%nat = true ->
  (forall j, (j < k)%nat -> stop_set (i + j)%nat = false) ->
  fst (loop stop_set now print_raises i stdout st)
  = fst (loop never now print_raises i (firstn k stdout) st)
  /\ (snd (loop stop_set now print_raises i stdout st) = Escaped
      <-> snd (loop never now print_raises i (firstn k stdout) st) = Escaped).
Proof.
  induction k as [|k IH]; intros stdout i st Hk Hlt.
  - rewrite Nat.add_0_r in Hk. destruct stdout; cbn [loop firstn]; rewrite Hk;
      (split; [reflexivity | split; discriminate]).
  - pose proof (Hlt 0%nat ltac:(lia)) as H0. rewrite Nat.add_0_r in H0.
    destruct stdout as [|rd stdout]; cbn [loop firstn]; rewrite H0;
      [split; reflexivity|].
    cbn [never]. destruct rd as [c| |]; [|split; reflexivity..].
    destruct (on_char now i st c) as [st1|st1]; [|split; reflexivity].
    apply IH.
    + rewrite <- Hk. f_equal. lia.
    + intros j Hj. rewrite <- (Hlt (S j)) by lia. f_equal. lia.
Qed.

End Invariants.

(** Every match needs the letter that opens the heading, a colon and the
    unit. *)
Lemma search_needs b r :
  search power_pattern b = Some r ->
  In "I"%char b /\ In ":"%char b /\ In "W"%char b.
Proof.
  intros H. apply search_where in H. destruct H as (pre & t & -> & H).
  apply match_here_inv in H. destruct H as (mid & sp1 & sp2 & -> & _).
  unfold reading.
  repeat split; apply in_or_app; right; apply in_or_app; left.
  - apply in_or_app. left. left. reflexivity.
  - apply in_or_app. right. apply in_or_app. right. left. reflexivity.
  - apply in_or_app. right. apply in_or_app. right. right.
    apply in_or_app. right. apply in_or_app. right. apply in_or_app. right.
    left. reflexivity.
Qed.

Lemma sorted_stamps (now : nat -> float) js :
  monotone now -> StronglySorted lt js ->
  forall new : list sample, map fst new = map now js ->
  ForallOrdPairs not_later new.
Proof.
  intros M Srt. induction Srt as [|j js Srt IH F]; intros new E.
  - destruct new; [constructor | discriminate].
  - destruct new as [|x new]; [discriminate|]. cbn [map] in E.
    injection E as Ex E. constructor; [|apply IH, E].
    clear IH Srt. revert new E. induction F as [|j' js Hj F IH]; intros new E.
    + destruct new; [constructor | discriminate].
    + destruct new as [|y new]; [discriminate|]. cbn [map] in E.
      injection E as Ey E. constructor; [|apply IH, E].
      unfold not_later. rewrite Ex, Ey. apply M. lia.
Qed.

End ReaderInvariants.

(** ** Further facts on the tasks and on the sibling script *)

Module TaskFacts.
Import Py Re Monitor Experiment Props Shapes Analysis.
Import FloatFacts ReFacts MonitorFacts ExperimentFacts SimpleFacts.
Import PatternForward PatternInverse.

(** A float above zero is a positive number or the positive infinity. *)
Lemma positive_cases x :
  fltb fzero x = true ->
  x = S754_infinity false \/ exists m e, x = S754_finite false m e.
Proof.
  unfold fltb, SFltb. destruct x as [sg|[|]| |[|] m e]; simpl; try discriminate; eauto.
Qed.

Lemma floor_positive x : fleb f0_1 x = true -> fltb fzero x = true.
Proof.
  unfold fleb, fltb, SFleb, SFltb.
  destruct x as [sg|[|]| |[|] m e]; simpl; try discriminate; reflexivity.
Qed.

Lemma fmul_positive x y :
  fltb fzero x = true -> fltb fzero y = true -> nonneg (fmul x y).
Proof.
  intros Hx Hy.
  destruct (positive_cases x Hx) as [->|(mx & ex & ->)];
    destruct (positive_cases y Hy) as [->|(my & ey & ->)]; try reflexivity.
  unfold fmul, SFmul. cbn [xorb]. apply signed_nonneg, binary_round_aux_signed. lia.
Qed.

Lemma calculate_returns baseline start_time end_time n ps :
  ps <> [] -> Z.of_nat (length ps) < 2 ^ 53 -> 0 <= n < 2 ^ 53 ->
  exists mt rw,
    calculate baseline start_time end_time (PInt n) ps = Ok (mt, rw)
    /\ Tokens rw = n.
Proof.
  intros Hps Hlen Hn. unfold calculate.
  rewrite mean_small.
  2:{ destruct ps; [congruence|]. cbn [length] in *. split; [lia | exact Hlen]. }
  cbn [bind]. unfold per_token, truediv. cbn [gt0 to_float int_of].
  destruct (Z.ltb_spec 0 n) as [P|Z0].
  - destruct (float_of_int_small n ltac:(lia)) as [-> E]. cbn [bind]. rewrite E.
    cbn [bind]. eexists. eexists. split; reflexivity.
  - cbn [bind]. eexists. eexists. split; reflexivity.
Qed.

Lemma findall_from_length p t :
  forall skip, (length (findall_from p skip t) <= S (length t))%nat.
Proof.
  induction t as [|a t IH]; intros skip.
  - destruct skip; cbn [findall_from length]; [|lia].
    destruct (match_here p []); cbn [length]; lia.
  - destruct skip; cbn [findall_from length].
    + destruct (match_here p (a :: t)); cbn [length].
      * match goal with |- context [findall_from p ?k t] => pose proof (IH k) end. lia.
      * pose proof (IH 0%nat). lia.
    + pose proof (IH skip). lia.
Qed.

Lemma num_truediv_guarded x y :
  gt0 y = true -> num_truediv x y <> Raise ZeroDivisionError.
Proof.
  intros G. destruct x as [a|a], y as [b|b]; cbn [num_truediv].
  - unfold int_truediv. cbn [gt0] in G. apply Z.ltb_lt in G.
    destruct (Z.eqb_spec b 0); [lia|]. destruct (is_finite _); discriminate.
  - pose proof (float_of_int_no_zero_division a) as F.
    destruct (float_of_int a) as [fa|]; cbn [bind]; [|same_raise F].
    destruct (gt0_divisor (PFloat b) G) as [E|(d & E & N)]; [discriminate E|].
    injection E as <-. rewrite N. discriminate.
  - unfold truediv.
    destruct (gt0_divisor (PInt b) G) as [->|(d & -> & N)]; cbn [bind]; [discriminate|].
    rewrite N. discriminate.
  - unfold truediv.
    destruct (gt0_divisor (PFloat b) G) as [->|(d & -> & N)]; cbn [bind]; [discriminate|].
    rewrite N. discriminate.
Qed.

(** The numbers of a text of readings convert. *)
Lemma entries_floats es trailing :
  Forall well_formed es -> quiet trailing ->
  findall power_pattern (concat (map render es) ++ trailing) = map number es
  /\ exists fs, Simple.floats_of (map number es) = Ok fs
                /\ Forall nonneg fs /\ length fs = length es.
Proof.
  intros H Q. pose proof (findall_entries es trailing H Q) as E.
  split; [exact E|].
  destruct (findall_floats (concat (map render es) ++ trailing)) as (fs & F & N & L).
  rewrite E in F, L. exists fs. rewrite L, length_map. auto.
Qed.

Lemma floats_of_no_zero_division l : Simple.floats_of l <> Raise ZeroDivisionError.
Proof.
  induction l as [|g l IH]; cbn [Simple.floats_of]; [discriminate|].
  destruct (float_of_str g); [|discriminate].
  destruct (Simple.floats_of l); cbn [bind]; [discriminate | same_raise IH].
Qed.

Lemma ratio_guarded x y : ratio x y <> Raise ZeroDivisionError.
Proof.
  unfold ratio. destruct (gt0 y) eqn:G; [|discriminate].
  pose proof (num_truediv_guarded x y G) as N.
  destruct (num_truediv x y); cbn [bind]; [discriminate | same_raise N].
Qed.

End TaskFacts.

(** ** Further properties *)

Module RunFacts.
Import Py Re Monitor Props Shapes.
Import FloatFacts ReFacts MonitorFacts PatternForward PatternInverse ReaderSteps ReaderInvariants.

Lemma run_start stop_set now print_raises stdout :
  run stop_set now print_raises stdout
  = (after_loop (fst (loop stop_set now print_raises 0 stdout start))
                (snd (loop stop_set now print_raises 0 stdout start)),
     snd (loop stop_set now print_raises 0 stdout start)).
Proof.
  unfold run. change {| buffer := [] ; data_queue := [] ; effects := [Popen] |} with start.
  destruct (loop stop_set now print_raises 0 stdout start). reflexivity.
Qed.

Lemma after_loop_same st why why' :
  (why = Escaped <-> why' = Escaped) -> after_loop st why = after_loop st why'.
Proof.
  intros [H H']. destruct why, why'; try reflexivity;
    (discriminate (H eq_refl) || discriminate (H' eq_refl)).
Qed.

Lemma loop_never_end now print_raises i st :
  loop never now print_raises i [] st = (st, EndOfStream).
Proof. reflexivity. Qed.

(** With no stop request a pipe is read to its end. *)
Lemma loop_never_exit now print_raises t :
  forall i st, snd (loop never now print_raises i (pipe t) st) = EndOfStream.
Proof.
  induction t as [|c t IH]; intros i st; [reflexivity|].
  cbn [pipe map]. rewrite loop_never_char.
  destruct (on_char_total now i st c) as (st' & ->). apply IH.
Qed.

Lemma loop_count stop_set now print_raises stdout :
  forall i st,
  (length (data_queue (fst (loop stop_set now print_raises i stdout st)))
   <= length (data_queue st) + length (filter newline_read stdout))%nat.
Proof.
  induction stdout as [|rd stdout IH]; intros i st; cbn [loop].
  - destruct (stop_set i); cbn; lia.
  - destruct (stop_set i); [cbn [fst]; lia|].
    destruct rd as [c| |];
      [|unfold on_exception; destruct (print_raises i); cbn; lia|cbn; lia].
    destruct (on_char now i st c) as [st1|st1] eqn:E.
    + specialize (IH (S i) st1). cbn [filter newline_read].
      destruct (on_char_effects _ _ _ _ _ E)
        as [[Eq _]|(r & w & Nl & _ & _ & _ & Eq & _)].
      * rewrite Eq in IH. destruct (Ascii.eqb c newline); cbn [length]; lia.
      * rewrite Eq, length_app in IH. rewrite Nl. cbn [length] in *. lia.
    + destruct (on_char_total now i st c) as (st2 & E2). congruence.
Qed.

Lemma sample_entry_well_formed : well_formed sample_entry.
Proof.
  split.
  - repeat constructor; discriminate.
  - split; cbn.
    + repeat constructor; discriminate.
    + discriminate.
    + repeat constructor; discriminate.
    + apply (literal_point "5" [] ["0"; "0"]%char); repeat constructor.
    + constructor.
Qed.

End RunFacts.

Import Py Re Monitor Props Shapes Analysis.
Import FloatFacts ReFacts MonitorFacts ExperimentFacts SimpleFacts.
Import PatternForward PatternInverse ReaderSteps ReaderInvariants TaskFacts RunFacts.

(** X1. Whatever the power pattern finds in a buffer is a reading: the
    buffer is some text, then the heading, some characters of one line, a
    colon, at least one space, the captured decimal literal, spaces and
    the unit [W], then the text left behind the match. *)
Theorem X1_match_spells_reading (b : str) (r : found) :
  search power_pattern b = Some r ->
  exists pre mid sp1 sp2,
    b = pre ++ reading mid sp1 (group1 r) sp2 ++ rest r
    /\ all_in Dot mid /\ sp1 <> [] /\ all_in Space sp1 /\ all_in Space sp2
    /\ decimal_literal (group1 r).
Proof.
  intros H. apply search_where in H. destruct H as (pre & t & -> & H).
  apply match_here_inv in H. destruct H as (mid & sp1 & sp2 & -> & H).
  exists pre, mid, sp1, sp2. split; [reflexivity | exact H].
Qed.

(** X1 on a reading line of 5.00 W. *)
Lemma X1_witness :
  exists pre mid sp1 sp2,
    line "5.00" = pre ++ reading mid sp1 (s "5.00") sp2 ++ [newline]
    /\ all_in Dot mid /\ sp1 <> [] /\ all_in Space sp1 /\ all_in Space sp2
    /\ decimal_literal (s "5.00").
Proof.
  apply (X1_match_spells_reading (line "5.00")
           {| group1 := s "5.00" ; rest := [newline] |}).
  reflexivity.
Defined.

(** X2. A reading on one line is found: behind any text that holds no
    capital I, and whatever follows the unit, the search returns the
    number of the reading and the text behind the unit. *)
Theorem X2_search_finds_reading (pre mid sp1 w sp2 u : str) :
  quiet pre -> one_line mid sp1 w sp2 ->
  search power_pattern (pre ++ reading mid sp1 w sp2 ++ u)
  = Some {| group1 := w ; rest := u |}.
Proof.
  intros Q L. rewrite (search_quiet _ _ Q).
  apply search_now, match_here_reading, L.
Qed.

(** X2 on a line of noise followed by a reading of 5.00 W. *)
Lemma X2_witness :
  search power_pattern (render sample_entry ++ [newline])
  = Some {| group1 := s "5.00" ; rest := [newline] |}.
Proof.
  unfold render. rewrite <- app_assoc.
  apply X2_search_finds_reading; apply sample_entry_well_formed.
Defined.

(** X3. On a text made of readings on one line, each behind text without
    a capital I, [findall] returns the numbers of the readings, one per
    reading and in order, and [float] converts every one of them. *)
Theorem X3_findall_one_per_reading (es : list entry) (trailing : str) :
  Forall well_formed es -> quiet trailing ->
  findall power_pattern (concat (map render es) ++ trailing) = map number es
  /\ exists fs,
       Simple.floats_of (findall power_pattern (concat (map render es) ++ trailing))
       = Ok fs
       /\ length fs = length es.
Proof.
  intros H Q. destruct (entries_floats es trailing H Q) as (E & fs & F & _ & L).
  split; [exact E|]. exists fs. rewrite E. split; assumption.
Qed.

(** X3 on two copies of the sample entry. *)
Lemma X3_witness :
  findall power_pattern (concat (map render [sample_entry; sample_entry]) ++ [newline])
  = [s "5.00"; s "5.00"].
Proof.
  apply (X3_findall_one_per_reading [sample_entry; sample_entry] [newline]).
  - constructor; [apply sample_entry_well_formed|].
    constructor; [apply sample_entry_well_formed | constructor].
  - constructor; [discriminate | constructor].
Defined.

(** X4. [get_baseline_power] falls back to 4.0 W on an output without
    reading, and on an output made of readings on one line it returns the
    sum of their values, added in order, divided by their number. *)
Theorem X4_baseline_power_of_output :
  (forall t, quiet t -> Simple.get_baseline_power t = Ok f4_0)
  /\ (forall es trailing,
        Forall well_formed es -> quiet trailing ->
        es <> [] -> Z.of_nat (length es) < 2 ^ 53 ->
        exists fs,
          Simple.floats_of (map number es) = Ok fs
          /\ length fs = length es
          /\ Simple.get_baseline_power (concat (map render es) ++ trailing)
             = Ok (fdiv (sum fs) (of_Z (Z.of_nat (length es))))).
Proof.
  split.
  - intros t Q. unfold Simple.get_baseline_power.
    rewrite (findall_quiet_nil t Q). reflexivity.
  - intros es trailing H Q Ne Len.
    destruct (entries_floats es trailing H Q) as (E & fs & F & _ & L).
    exists fs. split; [exact F|]. split; [exact L|].
    unfold Simple.get_baseline_power. rewrite E.
    destruct es as [|e es]; [congruence|]. cbn [map]. cbn [map] in F. rewrite F.
    cbn [bind]. rewrite mean_small; rewrite L; [reflexivity|].
    cbn [length] in *. split; [lia | exact Len].
Qed.

(** X4 on an output of two readings of 5.00 W: the baseline is 5.0. *)
Lemma X4_witness :
  Simple.get_baseline_power
    (concat (map render [sample_entry; sample_entry]) ++ [newline])
  = Ok (of_decimal 50 1).
Proof.
  destruct (proj2 X4_baseline_power_of_output [sample_entry; sample_entry] [newline])
    as (fs & F & _ & E).
  - constructor; [apply sample_entry_well_formed|].
    constructor; [apply sample_entry_well_formed | constructor].
  - constructor; [discriminate | constructor].
  - discriminate.
  - vm_compute. reflexivity.
  - rewrite E. vm_compute in F. injection F as <-. vm_compute. reflexivity.
Defined.

(** X5. [get_baseline_power] always returns on an output of fewer than
    2^53 - 1 characters, and what it returns is not negative; in no case
    does it divide by zero.  The same holds for the mean that
    [calibrate_baseline] takes. *)
Theorem X5_baselines_always_defined :
  (forall stdout,
     Z.of_nat (length stdout) + 1 < 2 ^ 53 ->
     exists b, Simple.get_baseline_power stdout = Ok b /\ fleb fzero b = true)
  /\ (forall stdout, Simple.get_baseline_power stdout <> Raise ZeroDivisionError)
  /\ (forall m, calibrate_baseline m <> Raise ZeroDivisionError).
Proof.
  split; [|split].
  - intros stdout Len. unfold Simple.get_baseline_power.
    destruct (findall_floats stdout) as (fs & F & N & L).
    pose proof (findall_from_length power_pattern stdout 0) as B.
    fold (findall power_pattern stdout) in B.
    destruct (findall power_pattern stdout) as [|g gs] eqn:E.
    + exists f4_0. split; reflexivity.
    + rewrite F. cbn [bind].
      assert (M : mean fs = Ok (fdiv (sum fs) (of_Z (Z.of_nat (length fs))))).
      { apply mean_small. rewrite L. cbn [length] in *. split; lia. }
      rewrite M. eexists. split; [reflexivity|]. exact (mean_nonneg fs _ N M).
  - intros stdout. unfold Simple.get_baseline_power.
    destruct (findall_floats stdout) as (fs & F & _ & L).
    destruct (findall power_pattern stdout) as [|g gs]; [discriminate|].
    rewrite F. cbn [bind]. apply mean_no_zero_division.
    destruct fs; [discriminate L | discriminate].
  - intros m. unfold calibrate_baseline. rewrite drain_readings_spec. cbn [app].
    destruct (map snd (queue m)) as [|x rs] eqn:R; [discriminate|].
    pose proof (mean_no_zero_division (x :: rs) ltac:(discriminate)) as M.
    destruct (mean (x :: rs)); cbn [bind]; [discriminate | same_raise M].
Qed.

(** X5 on the output of the sample entry. *)
Lemma X5_witness :
  exists b, Simple.get_baseline_power (render sample_entry) = Ok b
            /\ fleb fzero b = true.
Proof.
  apply (proj1 X5_baselines_always_defined). vm_compute. reflexivity.
Defined.

(** X6. The first reading of a stream is queued once, at the newline
    that ends its line, with its own value and the clock of that newline:
    this holds behind any text without a capital I, however long. *)
Theorem X6_reader_queues_first_reading
  (now : nat -> float) (print_raises : nat -> bool) (pre mid sp1 w sp2 : str) :
  quiet pre -> one_line mid sp1 w sp2 ->
  exists v,
    float_of_str w = Some v
    /\ data_queue (fst (run never now print_raises
                          (pipe (pre ++ reading mid sp1 w sp2 ++ [newline]))))
       = [(now (length pre + length (reading mid sp1 w sp2))%nat, v)]
    /\ snd (run never now print_raises
               (pipe (pre ++ reading mid sp1 w sp2 ++ [newline])))
       = EndOfStream.
Proof.
  intros Q L.
  destruct (float_of_str_literal w (w_literal _ _ _ _ L)) as (n & k & F).
  exists (of_decimal n k). split; [exact F|].
  rewrite run_start. cbn [fst snd]. rewrite after_loop_queue.
  rewrite !pipe_app.
  destruct (loop_quiet now print_raises pre Q 0 start
              (pipe (reading mid sp1 w sp2) ++ pipe [newline]))
    as (b & Qb & _ & E); [constructor|].
  rewrite E. rewrite (loop_plain now print_raises _ (reading_plain _ _ _ _ L)).
  rewrite with_buffer_twice. cbn [buffer with_buffer pipe map].
  rewrite loop_never_char.
  rewrite (on_char_hit now _ _ {| group1 := w ; rest := [newline] |} (of_decimal n k)).
  - rewrite loop_never_end. cbn [fst snd data_queue put with_buffer start app].
    split; reflexivity.
  - cbn [buffer with_buffer]. rewrite <- app_assoc. apply search_reading; assumption.
  - exact F.
Qed.

(** X6 on the sample entry: one sample of 5.0 W stamped at index 64. *)
Lemma X6_witness :
  exists v,
    float_of_str (s "5.00") = Some v
    /\ data_queue (fst (run never (fun i => of_Z (Z.of_nat i)) never
                          (pipe (render sample_entry ++ [newline]))))
       = [(of_Z 64, v)]
    /\ snd (run never (fun i => of_Z (Z.of_nat i)) never
              (pipe (render sample_entry ++ [newline]))) = EndOfStream.
Proof.
  unfold render. rewrite <- app_assoc.
  exact (X6_reader_queues_first_reading (fun i => of_Z (Z.of_nat i)) never
           (before sample_entry) (e_mid sample_entry) (e_sp1 sample_entry)
           (number sample_entry) (e_sp2 sample_entry)
           (proj1 sample_entry_well_formed) (proj2 sample_entry_well_formed)).
Defined.

(** X7. While the text read stays within the cap of 1000 characters, the
    buffer keeps the first reading, so every newline read behind that
    reading queues the value of the first reading again, stamped with the
    clock of that newline, whatever the lines in between hold. *)
Theorem X7_reader_repeats_first_reading
  (now : nat -> float) (print_raises : nat -> bool)
  (pre mid sp1 w sp2 t : str) (v : float) :
  quiet pre -> one_line mid sp1 w sp2 -> float_of_str w = Some v ->
  (length (pre ++ reading mid sp1 w sp2 ++ t) <= cap)%nat ->
  data_queue (fst (run never now print_raises
                     (pipe (pre ++ reading mid sp1 w sp2 ++ t))))
  = map (fun j => (now j, v))
        (newline_indices (length pre + length (reading mid sp1 w sp2)) t).
Proof.
  intros Q L F Len.
  rewrite run_start. cbn [fst]. rewrite after_loop_queue. rewrite !pipe_app.
  destruct (loop_quiet now print_raises pre Q 0 start
              (pipe (reading mid sp1 w sp2) ++ pipe t))
    as (b & Qb & Lb & E); [constructor|].
  rewrite E. rewrite <- (app_nil_r (pipe t)).
  rewrite (loop_plain now print_raises _ (reading_plain _ _ _ _ L)).
  rewrite app_nil_r.
  rewrite with_buffer_twice. cbn [buffer with_buffer].
  rewrite !length_app in Len. cbn [buffer start length] in Lb.
  destruct (loop_repeat now print_raises mid sp1 w sp2 v b Qb L F t
              (0 + length pre + length (reading mid sp1 w sp2))%nat
              (with_buffer start (b ++ reading mid sp1 w sp2)) [])
    as [_ D].
  - cbn [buffer with_buffer]. rewrite app_nil_r. reflexivity.
  - cbn [buffer with_buffer]. rewrite length_app. lia.
  - rewrite D. reflexivity.
Qed.

(** X7 on the sample entry followed by two more lines: three samples. *)
Lemma X7_witness :
  data_queue (fst (run never (fun i => of_Z (Z.of_nat i)) never
                     (pipe (before sample_entry
                            ++ reading (e_mid sample_entry) (e_sp1 sample_entry)
                                       (number sample_entry) (e_sp2 sample_entry)
                            ++ newline :: s "bar" ++ [newline; newline]))))
  = [(of_Z 64, of_decimal 500 2); (of_Z 68, of_decimal 500 2);
     (of_Z 69, of_decimal 500 2)].
Proof.
  rewrite (X7_reader_repeats_first_reading _ _ _ _ _ _ _ _ (of_decimal 500 2));
    try apply sample_entry_well_formed.
  - vm_compute. reflexivity.
  - vm_compute. reflexivity.
  - vm_compute. lia.
Defined.

(** X8. The samples in the queue are stamped, in queue order, with the
    clock at strictly increasing indices of reads, each of which
    delivered a newline; hence there is at most one sample per newline
    read. *)
Theorem X8_reader_stamps_newlines
  (stop_set : nat -> bool) (now : nat -> float) (print_raises : nat -> bool)
  (stdout : list read) :
  (exists js,
     map fst (data_queue (fst (run stop_set now print_raises stdout))) = map now js
     /\ StronglySorted lt js
     /\ Forall (fun j => nth_error stdout j = Some (Char newline)) js)
  /\ (length (data_queue (fst (run stop_set now print_raises stdout)))
      <= length (filter newline_read stdout))%nat.
Proof.
  rewrite run_start. cbn [fst]. rewrite after_loop_queue. split.
  - destruct (loop stop_set now print_raises 0 stdout start) as [st why] eqn:E.
    destruct (loop_stamps _ _ _ _ _ _ _ _ E) as (new & js & Q & T & Srt & P).
    exists js. cbn [fst]. rewrite Q. cbn [data_queue start app].
    split; [exact T|]. split; [exact Srt|].
    revert P. apply Forall_impl. intros j [_ H]. rewrite Nat.sub_0_r in H. exact H.
  - exact (loop_count stop_set now print_raises stdout 0 start).
Qed.

(** X9. If the clock never runs backwards, the samples lie in the queue
    in order of time. *)
Theorem X9_reader_queue_in_time_order
  (stop_set : nat -> bool) (now : nat -> float) (print_raises : nat -> bool)
  (stdout : list read) :
  monotone now ->
  ForallOrdPairs not_later
    (data_queue (fst (run stop_set now print_raises stdout))).
Proof.
  intros M. rewrite run_start. cbn [fst]. rewrite after_loop_queue.
  destruct (loop stop_set now print_raises 0 stdout start) as [st why] eqn:E.
  destruct (loop_stamps _ _ _ _ _ _ _ _ E) as (new & js & Q & T & Srt & _).
  cbn [fst]. rewrite Q. cbn [data_queue start app].
  exact (sorted_stamps now js M Srt new T).
Qed.

(** X9 with a clock that stands still. *)
Lemma X9_witness :
  ForallOrdPairs not_later
    (data_queue (fst (run never (fun _ => of_Z 7) never (pipe two_readings)))).
Proof.
  apply X9_reader_queue_in_time_order.
  intros i j _. reflexivity.
Defined.

(** X10. The buffer is always a block of the text delivered: what was cut
    at its front, then the buffer, then what was not read.  With no stop
    request the text is read to its end and the buffer is its tail. *)
Theorem X10_reader_buffer_is_tail_of_text :
  (forall stop_set now print_raises t,
     exists dropped unread,
       t = dropped ++ buffer (fst (run stop_set now print_raises (pipe t))) ++ unread
       /\ (snd (run stop_set now print_raises (pipe t)) = EndOfStream -> unread = []))
  /\ (forall now print_raises t,
        snd (run never now print_raises (pipe t)) = EndOfStream
        /\ exists dropped,
             t = dropped ++ buffer (fst (run never now print_raises (pipe t)))).
Proof.
  assert (A : forall stop_set now print_raises t,
     exists dropped unread,
       t = dropped ++ buffer (fst (run stop_set now print_raises (pipe t))) ++ unread
       /\ (snd (run stop_set now print_raises (pipe t)) = EndOfStream -> unread = [])).
  { intros stop_set now print_raises t. rewrite run_start. cbn [fst snd].
    rewrite after_loop_buffer.
    destruct (loop stop_set now print_raises 0 (pipe t) start) as [st why] eqn:E.
    destruct (loop_buffer _ _ _ _ _ _ _ _ E) as (d & un & Q & W).
    exists d, un. split; [exact Q | exact W]. }
  split; [exact A|].
  intros now print_raises t.
  assert (X : snd (run never now print_raises (pipe t)) = EndOfStream).
  { rewrite run_start. cbn [snd]. apply loop_never_exit. }
  split; [exact X|].
  destruct (A never now print_raises t) as (d & un & Q & W).
  exists d. rewrite (W X), app_nil_r in Q. exact Q.
Qed.

(** X10 on the text of 1001 characters and a newline. *)
Lemma X10_witness :
  exists dropped,
    no_newline ++ [newline]
    = dropped ++ buffer (fst (run never (fun _ => fzero) never
                                (pipe (no_newline ++ [newline])))).
Proof.
  apply (proj2 (proj2 X10_reader_buffer_is_tail_of_text (fun _ => fzero) never
                  (no_newline ++ [newline]))).
Defined.

(** X11. A text that lacks the capital I of the heading, or a colon, or
    the unit W, queues no sample, whenever the loop is stopped, and the
    loop does not leave through its error exit, nor by an exception. *)
Theorem X11_reader_ignores_text_without_marks
  (stop_set : nat -> bool) (now : nat -> float) (print_raises : nat -> bool)
  (t : str) (c : ascii) :
  c = "I"%char \/ c = ":"%char \/ c = "W"%char ->
  ~ In c t ->
  data_queue (fst (run stop_set now print_raises (pipe t))) = []
  /\ snd (run stop_set now print_raises (pipe t)) <> Failed
  /\ snd (run stop_set now print_raises (pipe t)) <> Escaped.
Proof.
  intros Hc Nt. rewrite run_start. cbn [fst snd]. rewrite after_loop_queue.
  destruct (loop stop_set now print_raises 0 (pipe t) start) as [st why] eqn:E.
  cbn [fst snd].
  apply (loop_without stop_set now print_raises c t)
    with (i := 0%nat) (st := start) (st' := st) (why := why).
  - intros b r H. destruct (search_needs b r H) as (HI & HC & HW).
    destruct Hc as [->|[->| ->]]; assumption.
  - exact Nt.
  - intros [].
  - exact E.
Qed.

(** X11 on a line that names the unit in lower case. *)
Lemma X11_witness :
  data_queue (fst (run never (fun _ => fzero) never
                     (pipe (s "Intel energy model derived package power: 5.00w"
                            ++ [newline])))) = [].
Proof.
  apply (X11_reader_ignores_text_without_marks never (fun _ => fzero) never
           _ "W"%char).
  - right. right. reflexivity.
  - intros H. vm_compute in H. repeat (destruct H as [H|H]; [discriminate H|]).
    exact H.
Defined.

(** X12. A stop request first seen at the loop test before read [k]
    leaves the buffer, the queue and the calls exactly as reading the
    first [k] reads to their end would: samples queued before the request
    are kept as they are. *)
Theorem X12_reader_stop_keeps_queue
  (stop_set : nat -> bool) (now : nat -> float) (print_raises : nat -> bool)
  (stdout : list read) (k : nat) :
  stop_set k = true ->
  (forall j, (j < k)%nat -> stop_set j = false) ->
  fst (run stop_set now print_raises stdout)
  = fst (run never now print_raises (firstn k stdout)).
Proof.
  intros Hk Hlt. rewrite !run_start. cbn [fst].
  destruct (loop_stop stop_set now print_raises k stdout 0 start Hk Hlt) as [E W].
  rewrite E. apply after_loop_same, W.
Qed.

(** X12 with a stop request at the loop test before read 3. *)
Lemma X12_witness :
  fst (run (fun i => (3 <=? i)%nat) (fun _ => fzero) never (pipe two_readings))
  = fst (run never (fun _ => fzero) never (firstn 3 (pipe two_readings))).
Proof.
  apply X12_reader_stop_keeps_queue.
  - reflexivity.
  - intros j H. apply Nat.leb_gt. exact H.
Defined.



(** X14. When the call took a positive time, the net power and the total
    energy of the row are numbers that are not negative: the net power is
    above zero and the energy at least zero. *)
Theorem X14_task_energy_not_negative
  (m : monitor) (start_time end_time : float) (resp : Experiment.response)
  (mt : Experiment.metrics) (rw : Experiment.row) :
  Experiment.run_task m start_time end_time resp = Experiment.Appended mt rw ->
  fltb fzero (fsub end_time start_time) = true ->
  fltb fzero (Experiment.avg_power_net mt) = true
  /\ fleb fzero (Experiment.total_energy_joules mt) = true.
Proof.
  intros H P.
  destruct (run_task_inv _ _ _ _ _ _ H) as (_ & _ & r & tc & _ & _ & C).
  destruct (calculate_inv _ _ _ _ _ _ _ C) as (_ & _ & He & _ & Hn & Ht & _).
  assert (N : fltb fzero (Experiment.avg_power_net mt) = true).
  { apply floor_positive. rewrite Hn. apply net_power_floor. }
  split; [exact N|]. rewrite Ht, He. apply fmul_positive; assumption.
Qed.

(** X14 on a window of two seconds with one sample. *)
Lemma X14_witness :
  fleb fzero (fmul (Experiment.net_power (of_Z 5) f3_0) (fsub (of_Z 2) (of_Z 0))) = true.
Proof.
  exact (proj2 (X14_task_energy_not_negative
    {| queue := [(of_Z 1, of_Z 5)] ; baseline_watts := f3_0 |} (of_Z 0) (of_Z 2)
    (Experiment.Reply {| Experiment.words := 10 ; Experiment.eval_count := Some (PInt 20) |})
    _ _ eq_refl eq_refl)).
Defined.

(** X15. A reply that carries a token count [n] with [0 < n < 2^53]
    always gives a row when the window holds a sample (and fewer than
    2^53 of them): the task is neither skipped nor caught, the row carries
    [n] tokens and both per-token metrics are quotients by [n]. *)
Theorem X15_task_appends_row
  (m : monitor) (start_time end_time : float) (w : nat) (n : Z) :
  Experiment.collect start_time end_time (queue m) [] <> [] ->
  Z.of_nat (length (queue m)) < 2 ^ 53 ->
  0 < n < 2 ^ 53 ->
  exists mt rw,
    Experiment.run_task m start_time end_time
      (Experiment.Reply {| Experiment.words := w ;
                           Experiment.eval_count := Some (PInt n) |})
    = Experiment.Appended mt rw
    /\ Experiment.Tokens rw = n
    /\ Experiment.joules_per_token mt
       = PFloat (fdiv (Experiment.total_energy_joules mt) (of_Z n))
    /\ Experiment.sec_per_token mt
       = PFloat (fdiv (Experiment.elapsed mt) (of_Z n)).
Proof.
  intros Hc Hlen Hn. unfold Experiment.run_task, Experiment.tokens_of.
  cbn [Experiment.eval_count eq0].
  destruct (Z.eqb_spec n 0) as [?|_]; [lia|].
  destruct (Experiment.collect start_time end_time (queue m) []) as [|x ps] eqn:E;
    [congruence|].
  assert (L : Z.of_nat (length (x :: ps)) < 2 ^ 53).
  { rewrite <- E, collect_spec. cbn [app]. rewrite length_map.
    apply Z.le_lt_trans with (Z.of_nat (length (queue m))); [|exact Hlen].
    apply Nat2Z.inj_le, filter_length_le. }
  destruct (calculate_returns (baseline_watts m) start_time end_time n (x :: ps))
    as (mt & rw & C & T); [discriminate | exact L | lia |].
  rewrite C. exists mt, rw. split; [reflexivity|]. split; [exact T|].
  destruct (calculate_inv _ _ _ _ _ _ _ C) as (_ & _ & _ & _ & _ & _ & J & S & _).
  unfold Experiment.per_token, truediv in J, S. cbn [gt0 to_float] in J, S.
  destruct (Z.ltb_spec 0 n) as [_|?]; [|lia].
  destruct (float_of_int_small n Hn) as [F Z0]. rewrite F in J, S.
  cbn [bind] in J, S. rewrite Z0 in J, S. cbn [bind] in J, S.
  injection J as <-. injection S as <-. split; reflexivity.
Qed.

(** X15 on one sample in the window and 20 tokens. *)
Lemma X15_witness :
  exists mt rw,
    Experiment.run_task
      {| queue := [(of_Z 1, of_Z 5)] ; baseline_watts := f3_0 |} (of_Z 0) (of_Z 2)
      (Experiment.Reply {| Experiment.words := 10 ;
                           Experiment.eval_count := Some (PInt 20) |})
    = Experiment.Appended mt rw
    /\ Experiment.Tokens rw = 20
    /\ Experiment.joules_per_token mt
       = PFloat (fdiv (Experiment.total_energy_joules mt) (of_Z 20))
    /\ Experiment.sec_per_token mt
       = PFloat (fdiv (Experiment.elapsed mt) (of_Z 20)).
Proof.
  apply X15_task_appends_row.
  - vm_compute. discriminate.
  - vm_compute. reflexivity.
  - lia.
Defined.

(** X16. A reply without words whose token count is missing or zero
    still gives a row when the window holds a sample: the token estimate
    is zero, the row carries 0 tokens, and both per-token metrics are the
    integer 0 while the energy of the window is reported. *)
Theorem X16_task_without_tokens
  (m : monitor) (start_time end_time : float) (r : Experiment.reply) :
  Experiment.words r = 0%nat ->
  (Experiment.eval_count r = None
   \/ exists tc, Experiment.eval_count r = Some tc /\ eq0 tc = true) ->
  Experiment.collect start_time end_time (queue m) [] <> [] ->
  Z.of_nat (length (queue m)) < 2 ^ 53 ->
  exists mt rw,
    Experiment.run_task m start_time end_time (Experiment.Reply r)
    = Experiment.Appended mt rw
    /\ Experiment.token_count mt = PFloat fzero
    /\ Experiment.Tokens rw = 0
    /\ Experiment.Joules_Per_Token rw = PInt 0
    /\ Experiment.Sec_Per_Token rw = PInt 0
    /\ Experiment.Total_Joules rw
       = round (PFloat (Experiment.total_energy_joules mt)) 2.
Proof.
  intros Hw He Hc Hlen. unfold Experiment.run_task.
  assert (T : Experiment.tokens_of r = Ok (PFloat fzero)).
  { unfold Experiment.tokens_of. rewrite Hw.
    destruct He as [->|(tc & -> & Z0)]; [|rewrite Z0]; reflexivity. }
  rewrite T.
  destruct (Experiment.collect start_time end_time (queue m) []) as [|x ps] eqn:E;
    [congruence|].
  assert (L : 0 < Z.of_nat (length (x :: ps)) < 2 ^ 53).
  { split; [cbn [length]; lia|].
    rewrite <- E, collect_spec. cbn [app]. rewrite length_map.
    apply Z.le_lt_trans with (Z.of_nat (length (queue m))); [|exact Hlen].
    apply Nat2Z.inj_le, filter_length_le. }
  unfold Experiment.calculate. rewrite (mean_small _ L). cbn [bind].
  unfold Experiment.per_token. cbn [gt0 int_of trunc bind].
  change (fltb fzero fzero) with false. cbv iota. cbn [bind].
  eexists. eexists. split; [reflexivity|].
  cbn [Experiment.token_count Experiment.Tokens Experiment.Joules_Per_Token
       Experiment.Sec_Per_Token Experiment.Total_Joules
       Experiment.total_energy_joules round].
  repeat split.
Qed.

(** X16 on an empty reply. *)
Lemma X16_witness :
  exists mt rw,
    Experiment.run_task
      {| queue := [(of_Z 1, of_Z 5)] ; baseline_watts := f3_0 |} (of_Z 0) (of_Z 2)
      (Experiment.Reply {| Experiment.words := 0 ; Experiment.eval_count := None |})
    = Experiment.Appended mt rw
    /\ Experiment.token_count mt = PFloat fzero
    /\ Experiment.Tokens rw = 0
    /\ Experiment.Joules_Per_Token rw = PInt 0
    /\ Experiment.Sec_Per_Token rw = PInt 0
    /\ Experiment.Total_Joules rw
       = round (PFloat (Experiment.total_energy_joules mt)) 2.
Proof.
  apply X16_task_without_tokens.
  - reflexivity.
  - left. reflexivity.
  - vm_compute. discriminate.
  - vm_compute. reflexivity.
Defined.

(** X17. The ratio printouts never divide by zero: in [run_experiment]
    every ratio against the first row is guarded by a positive cost of
    that row and is the integer 0 otherwise; in the sibling script the
    ratios are only taken when the first row has a positive cost. *)
Theorem X17_ratios_never_divide_by_zero :
  (forall results, Forall (fun q => q <> Raise ZeroDivisionError) (ratios results))
  /\ (forall r0 others,
        gt0 (Experiment.Joules_Per_Token r0) = false ->
        Forall (fun q => q = Ok (PInt 0)) (ratios (r0 :: others)))
  /\ (forall results,
        Forall (fun q => q <> Raise ZeroDivisionError) (simple_ratios results))
  /\ (forall r0 others,
        gt0 (Simple.joules_per_token r0) = false ->
        simple_ratios (r0 :: others) = []).
Proof.
  split; [|split; [|split]].
  - intros [|r0 [|r1 others]]; cbn [ratios]; try constructor.
    + apply ratio_guarded.
    + apply Forall_map, Forall_forall. intros r _. apply ratio_guarded.
  - intros r0 [|r1 others] G; cbn [ratios]; [constructor|].
    apply (Forall_map _ _ (r1 :: others)), Forall_forall. intros r _.
    unfold ratio. rewrite G. reflexivity.
  - intros [|r0 [|r1 others]]; cbn [simple_ratios]; try constructor.
    destruct (gt0 (Simple.joules_per_token r0)) eqn:G; [|constructor].
    apply Forall_flat_map, Forall_forall. intros r _.
    destruct (gt0 (Simple.joules_per_token r)); constructor; [|constructor].
    pose proof (num_truediv_guarded (Simple.joules_per_token r) _ G) as N.
    destruct (num_truediv _ _); cbn [bind]; [discriminate | same_raise N].
  - intros r0 [|r1 others] G; cbn [simple_ratios]; [reflexivity|].
    rewrite G. reflexivity.
Qed.

(** X17 on two rows whose first one has no cost. *)
Lemma X17_witness :
  let r0 := {| Experiment.Tokens := 0 ; Experiment.Time_s := PInt 0 ;
               Experiment.Avg_Watts_Raw := PInt 0 ; Experiment.Avg_Watts_Net := PInt 0 ;
               Experiment.Total_Joules := PInt 0 ;
               Experiment.Joules_Per_Token := PInt 0 ;
               Experiment.Sec_Per_Token := PInt 0 |} in
  Forall (fun q => q = Ok (PInt 0)) (ratios [r0; r0]).
Proof.
  intros r0. apply (proj1 (proj2 X17_ratios_never_divide_by_zero)). reflexivity.
Defined.

(** ** Facts on the largest reading and on read errors *)

Module OrderFacts.
Import Py Re Monitor Props Shapes Analysis.
Import FloatFacts ReFacts MonitorFacts ExperimentFacts SimpleFacts.
Import PatternForward PatternInverse ReaderSteps ReaderInvariants TaskFacts RunFacts.

Lemma finite_ltb m1 e1 m2 e2 :
  fltb (S754_finite false m1 e1) (S754_finite false m2 e2) = true
  <-> (e1 < e2 \/ (e1 = e2 /\ (m1 < m2)%positive)).
Proof.
  unfold fltb, SFltb, SFcompare.
  change PosDef.Pos.compare_cont with Pos.compare_cont.
  destruct (Z.compare_spec e1 e2) as [E|E|E].
  - fold (Pos.compare m1 m2). destruct (Pos.compare_spec m1 m2) as [P|P|P];
      split; try discriminate; try lia; intros _; reflexivity.
  - split; [intros _; left; exact E | reflexivity].
  - split; [discriminate | lia].
Qed.

Lemma fltb_trans x y z :
  nonneg x -> nonneg y -> nonneg z ->
  fltb x y = true -> fltb y z = true -> fltb x z = true.
Proof.
  intros Hx Hy Hz.
  destruct (nonneg_cases x Hx) as [[sx ->]|[->|(mx & ex & ->)]];
    destruct (nonneg_cases y Hy) as [[sy ->]|[->|(my & ey & ->)]];
    destruct (nonneg_cases z Hz) as [[sz ->]|[->|(mz & ez & ->)]];
    try (intros A B; (discriminate A || discriminate B || reflexivity)).
  rewrite !finite_ltb. lia.
Qed.

Lemma fltb_irrefl x : nonneg x -> fltb x x = false.
Proof.
  intros Hx. unfold fltb, SFltb. rewrite SFcompare_refl; [reflexivity|].
  destruct (nonneg_cases x Hx) as [[sx ->]|[->|(mx & ex & ->)]]; reflexivity.
Qed.

Lemma max2_nonneg a b : nonneg a -> nonneg b -> nonneg (max2 a b).
Proof. intros A B. unfold max2. destruct (fltb a b); assumption. Qed.

(** The fold of [max] ends on one of the values, and none is greater. *)
Lemma fold_max rest :
  forall acc, nonneg acc -> Forall nonneg rest ->
  (fold_left max2 rest acc = acc \/ In (fold_left max2 rest acc) rest)
  /\ Forall (fun y => fltb (fold_left max2 rest acc) y = false) rest
  /\ (forall y, nonneg y -> fltb acc y = false ->
                fltb (fold_left max2 rest acc) y = false).
Proof.
  induction rest as [|z rest IH]; intros acc A R; cbn [fold_left].
  - split; [left; reflexivity|]. split; [constructor | auto].
  - inversion R as [|? ? Z R']; subst.
    destruct (IH (max2 acc z) (max2_nonneg _ _ A Z) R') as (M & F & D).
    assert (Step : forall y, nonneg y -> fltb acc y = false -> fltb (max2 acc z) y = false).
    { intros y Y H. unfold max2. destruct (fltb acc z) eqn:C; [|exact H].
      destruct (fltb z y) eqn:C2; [|reflexivity].
      rewrite (fltb_trans acc z y A Z Y C C2) in H. discriminate. }
    assert (Zle : fltb (max2 acc z) z = false).
    { unfold max2. destruct (fltb acc z) eqn:C; [apply fltb_irrefl, Z | exact C]. }
    split; [|split].
    + destruct M as [M|M]; [|right; right; exact M].
      rewrite M. unfold max2. destruct (fltb acc z); [right; left; reflexivity | left; reflexivity].
    + constructor; [apply D; assumption | exact F].
    + intros y Y H. apply D; [exact Y | apply Step; assumption].
Qed.

Section Reader.
Variable now : nat -> float.
Variable print_raises : nat -> bool.

(** Reading a text and then more reads is reading the text first. *)
Lemma loop_then t :
  forall i st stdout,
  loop never now print_raises i (pipe t ++ stdout) st
  = loop never now print_raises (i + length t) stdout
      (fst (loop never now print_raises i (pipe t) st)).
Proof.
  induction t as [|c t IH]; intros i st stdout.
  - cbn [pipe map app length fst loop never]. rewrite Nat.add_0_r. reflexivity.
  - cbn [pipe map app length]. rewrite !loop_never_char.
    destruct (on_char_total now i st c) as (st' & ->).
    change (map Char t) with (pipe t). rewrite IH. f_equal. lia.
Qed.
End Reader.

End OrderFacts.

Import Py Re Monitor Props Shapes Analysis.
Import FloatFacts ReFacts MonitorFacts ExperimentFacts SimpleFacts.
Import PatternForward PatternInverse ReaderSteps ReaderInvariants TaskFacts RunFacts OrderFacts.

(** X18. A read that raises ends [run] at once, with the buffer and the
    queue that the text read before it has left: the samples queued so far
    are kept.  If the exception is an [Exception] and the print of the
    handler returns, the loop is left through its error exit, the error is
    printed once and the subprocess is terminated.  If the print raises, or
    if the exception is not an [Exception], the exception leaves [run]:
    nothing is printed and the subprocess is not terminated. *)
Theorem X18_reader_error_keeps_queue
  (now : nat -> float) (print_raises : nat -> bool)
  (t : str) (stdout : list read) :
  let before_error := fst (run never now print_raises (pipe t)) in
  let caught := run never now print_raises (pipe t ++ ReadRaises :: stdout) in
  let uncaught :=
    run never now print_raises (pipe t ++ ReadRaisesBase :: stdout) in
  buffer (fst caught) = buffer before_error
  /\ data_queue (fst caught) = data_queue before_error
  /\ buffer (fst uncaught) = buffer before_error
  /\ data_queue (fst uncaught) = data_queue before_error
  /\ exists calls,
       effects before_error = calls ++ [Terminate]
       /\ (print_raises (length t) = false ->
           snd caught = Failed
           /\ effects (fst caught) = calls ++ [PrintError; Terminate])
       /\ (print_raises (length t) = true ->
           snd caught = Escaped /\ effects (fst caught) = calls)
       /\ snd uncaught = Escaped
       /\ effects (fst uncaught) = calls.
Proof.
  cbv zeta. rewrite !run_start. cbn [fst snd].
  rewrite !after_loop_buffer, !after_loop_queue.
  rewrite !loop_then, loop_never_exit. cbn [loop never Nat.add].
  unfold on_exception.
  destruct (print_raises (length t)); cbn [fst snd buffer data_queue print_error];
    (split; [reflexivity|]); (split; [reflexivity|]);
    (split; [reflexivity|]); (split; [reflexivity|]);
    exists (effects (fst (loop never now print_raises 0 (pipe t) start)));
    (split; [reflexivity|]); (split; [|split; [|split; reflexivity]]);
    intros P; try discriminate P; split; try reflexivity.
  cbn [after_loop effects print_error]. rewrite <- app_assoc. reflexivity.
Qed.

(** X18 on one reading line and then a read that raises an [Exception],
    with a print that works. *)
Lemma X18_witness :
  snd (run never midnight never (pipe (line "5.00") ++ [ReadRaises])) = Failed.
Proof.
  pose proof (X18_reader_error_keeps_queue midnight never (line "5.00") []) as H.
  cbv zeta in H.
  destruct H as (_ & _ & _ & _ & calls & _ & H & _).
  apply H. reflexivity.
Defined.

(** X19. When the power data is made of readings on one line,
    [run_with_power_monitoring] takes for the average the sum of their
    values divided by their number, and for the maximum one of these
    values that none of them exceeds. *)
Theorem X19_power_of_readings (es : list entry) (trailing : str) :
  Forall well_formed es -> quiet trailing ->
  es <> [] -> Z.of_nat (length es) < 2 ^ 53 ->
  exists fs mx,
    Simple.floats_of (map number es) = Ok fs
    /\ Simple.parse_power (Simple.Content (concat (map render es) ++ trailing))
       = (PFloat (fdiv (sum fs) (of_Z (Z.of_nat (length es)))), PFloat mx)
    /\ In mx fs
    /\ Forall (fun y => fltb mx y = false) fs.
Proof.
  intros H Q Ne Len.
  destruct (entries_floats es trailing H Q) as (E & fs & F & N & L).
  unfold Simple.parse_power. rewrite E, F.
  destruct fs as [|x rest].
  { destruct es; [congruence | discriminate L]. }
  exists (x :: rest), (fold_left max2 rest x). split; [reflexivity|].
  rewrite mean_small.
  2:{ rewrite L. destruct es; [congruence|]. cbn [length] in *. split; [lia | exact Len]. }
  rewrite L. split; [reflexivity|].
  inversion N as [|? ? Nx Nr]; subst.
  destruct (fold_max rest x Nx Nr) as (M & Fa & D).
  split.
  - destruct M as [->|M]; [left; reflexivity | right; exact M].
  - constructor; [|exact Fa]. apply D; [exact Nx | apply fltb_irrefl, Nx].
Qed.

(** X19 on two readings of 5.00 W. *)
Lemma X19_witness :
  exists fs mx,
    Simple.floats_of (map number [sample_entry; sample_entry]) = Ok fs
    /\ Simple.parse_power
         (Simple.Content (concat (map render [sample_entry; sample_entry]) ++ [newline]))
       = (PFloat (fdiv (sum fs) (of_Z (Z.of_nat (length [sample_entry; sample_entry])))),
          PFloat mx)
    /\ In mx fs
    /\ Forall (fun y => fltb mx y = false) fs.
Proof.
  apply X19_power_of_readings.
  - constructor; [apply sample_entry_well_formed|].
    constructor; [apply sample_entry_well_formed | constructor].
  - constructor; [discriminate | constructor].
  - discriminate.
  - vm_compute. reflexivity.
Defined.
